(** * A model of [jre_launcher.cpp]: launching and supervising one child process

    The launcher forks a child whose standard output and error go into a
    pipe, forwards what the child prints, notices its death, and supports
    cancellation by a signal or by [stopJvm].  The code is a sequence of
    system calls around two global variables.  It is embedded here as
    state-passing functions over a [world] that holds

    - the two globals of the source, [child_pid] and [signal_received],
      and the [errno] the source reads after a failed call;
    - the part of the kernel the calls talk to: the child's entry in the
      process table, the pipe, the supervisor's two pipe descriptors and
      what reached its standard output;
    - the history: the system calls issued by the thread that runs
      [launchJvm], and every signal sent with [kill];
    - the future: a schedule that says what the environment does during
      each coming system call (signals delivered to the supervisor, calls
      of [stopJvm] from another thread, actions of the child, and whether
      the call itself fails).

    Conventions.

    - Between two system calls [launchJvm] touches only its locals and the
      two globals, so what happens asynchronously is taken to happen
      during the calls: each call of the supervising thread first lets the
      environment take one turn of the schedule, then gets its answer from
      the kernel state.
    - A function that may not return ([while (true)], the blocking
      [waitpid]) has a result in [option]; [None] is "has not returned".
    - The messages ([android_println], [perror], [fprintf]) are left out;
      [errno] is what the last failed system call stored, whatever a
      later [perror] makes of it.
    - The child's side of the [fork] is the list of calls it makes up to
      [execvp]; what the program does afterwards is in the schedule. *)

From Stdlib Require Import ZArith List String Bool Lia.
From Stdlib Require Import Strings.Byte Strings.Ascii.
From ExtLib Require Import Structures.Monad Data.Monads.StateMonad.
From Equations Require Import Equations.
Import ListNotations.
Import MonadNotation.
Local Open Scope monad_scope.
Local Open Scope Z_scope.

Set Implicit Arguments.

(** ** Constants of the platform headers (Linux / bionic) *)

Definition SIGINT : Z := 2.
Definition SIGKILL : Z := 9.
Definition SIGPIPE : Z := 13.
Definition SIGTERM : Z := 15.

Definition ESRCH : Z := 3.
Definition EINTR : Z := 4.
Definition ECHILD : Z := 10.
Definition EAGAIN : Z := 11.
Definition EWOULDBLOCK : Z := 11.
Definition EPIPE : Z := 32.

Definition POLLIN : Z := 1.
Definition POLLERR : Z := 8.
Definition POLLHUP : Z := 16.

Definition O_NONBLOCK : Z := 2048.
Definition WNOHANG : Z := 1.
Definition EXIT_FAILURE : Z := 1.

(** [char buffer[1024]] of [launchJvm]. *)
Definition buffer_size : nat := 1024.

(** ** Data *)

(** The descriptors the launcher touches: [pipefd[0]], [pipefd[1]],
    [STDOUT_FILENO] and [STDERR_FILENO]. *)
Inductive fd := PipeRd | PipeWr | Stdout | Stderr.

(** What [sa.sa_handler] is set to. *)
Inductive disposition := Handler | Ignore | Default.

(** How a process ended, as the kernel knows it. *)
Inductive wstatus :=
| Exited (code : Z)
| Signaled (sig : Z).

(** The child's entry in the process table.  No entry ([None] in [proc])
    means the child was never created or has been reaped. *)
Inductive pstate :=
| Running
| Zombie (st : wstatus).

(** A system call with its arguments. *)
Inductive call :=
| Sigaction (signum : Z) (h : disposition)
| Pipe
| FcntlGetfl (f : fd)
| FcntlSetfl (f : fd) (flags : Z)
| Fork
| Close (f : fd)
| Dup2 (from to : fd)
| Execvp (file : option string) (argv : list string)
| Poll (f : fd) (events timeout : Z)
| Waitpid (pid options : Z)
| Read (f : fd) (count : nat)
| Write (f : fd) (buf : list byte)
| Kill (pid sig : Z)
| Usleep (usec : Z).

(** The two signals [setup_signal_handlers] routes to [signal_handler]. *)
Inductive caught := Interrupt | Terminate.

Definition signum (s : caught) : Z :=
  match s with Interrupt => SIGINT | Terminate => SIGTERM end.

(** What happens around the supervising thread, outside its control. *)
Inductive event :=
| Deliver (s : caught)          (* the signal reaches the supervisor *)
| StopRequest                   (* another thread calls [stopJvm] *)
| ChildWrites (bs : list byte)  (* the child side writes to the pipe *)
| ChildCloses                   (* the child side's last write end closes *)
| ChildDies (st : wstatus).     (* the child terminates and becomes a zombie *)

(** Whether a system call goes as the kernel state says, fails with an
    error number, or (for [write]) transfers only the first [k] bytes. *)
Inductive outcome :=
| Normal
| Fail (err : Z)
| Partial (k : nat).

(** One turn of the environment: the events that occur up to the return of
    the next system call of the supervising thread, and that call's fate. *)
Record slot := { events : list event; result : outcome }.

Record world := {
  (* globals of jre_launcher.cpp *)
  child_pid : Z;
  signal_received : Z;
  (* errno of the supervising thread *)
  errno : Z;
  (* kernel *)
  kpid : positive;            (* the pid fork gives to the child *)
  proc : option pstate;       (* the child's process-table entry *)
  pipe_data : list byte;      (* written to the pipe and not yet read *)
  child_wr : bool;            (* the child side holds a write end *)
  rd_open : bool;             (* the supervisor holds pipefd[0] *)
  wr_open : bool;             (* the supervisor holds pipefd[1] *)
  out : list byte;            (* what reached the supervisor's stdout *)
  child_calls : list call;    (* what the child ran after fork *)
  (* history and future *)
  kills : list (Z * Z);       (* every kill(pid, sig), in order *)
  calls : list call;          (* calls of the supervising thread, in order *)
  sched : list slot
}.

Definition set_child_pid (v : Z) (w : world) : world :=
  {| child_pid := v; signal_received := signal_received w; errno := errno w;
     kpid := kpid w; proc := proc w; pipe_data := pipe_data w;
     child_wr := child_wr w; rd_open := rd_open w; wr_open := wr_open w;
     out := out w; child_calls := child_calls w; kills := kills w;
     calls := calls w; sched := sched w |}.

Definition set_signal_received (v : Z) (w : world) : world :=
  {| child_pid := child_pid w; signal_received := v; errno := errno w;
     kpid := kpid w; proc := proc w; pipe_data := pipe_data w;
     child_wr := child_wr w; rd_open := rd_open w; wr_open := wr_open w;
     out := out w; child_calls := child_calls w; kills := kills w;
     calls := calls w; sched := sched w |}.

Definition set_errno (v : Z) (w : world) : world :=
  {| child_pid := child_pid w; signal_received := signal_received w; errno := v;
     kpid := kpid w; proc := proc w; pipe_data := pipe_data w;
     child_wr := child_wr w; rd_open := rd_open w; wr_open := wr_open w;
     out := out w; child_calls := child_calls w; kills := kills w;
     calls := calls w; sched := sched w |}.

Definition set_proc (v : option pstate) (w : world) : world :=
  {| child_pid := child_pid w; signal_received := signal_received w; errno := errno w;
     kpid := kpid w; proc := v; pipe_data := pipe_data w;
     child_wr := child_wr w; rd_open := rd_open w; wr_open := wr_open w;
     out := out w; child_calls := child_calls w; kills := kills w;
     calls := calls w; sched := sched w |}.

Definition set_pipe_data (v : list byte) (w : world) : world :=
  {| child_pid := child_pid w; signal_received := signal_received w; errno := errno w;
     kpid := kpid w; proc := proc w; pipe_data := v;
     child_wr := child_wr w; rd_open := rd_open w; wr_open := wr_open w;
     out := out w; child_calls := child_calls w; kills := kills w;
     calls := calls w; sched := sched w |}.

Definition set_child_wr (v : bool) (w : world) : world :=
  {| child_pid := child_pid w; signal_received := signal_received w; errno := errno w;
     kpid := kpid w; proc := proc w; pipe_data := pipe_data w;
     child_wr := v; rd_open := rd_open w; wr_open := wr_open w;
     out := out w; child_calls := child_calls w; kills := kills w;
     calls := calls w; sched := sched w |}.

Definition set_rd_open (v : bool) (w : world) : world :=
  {| child_pid := child_pid w; signal_received := signal_received w; errno := errno w;
     kpid := kpid w; proc := proc w; pipe_data := pipe_data w;
     child_wr := child_wr w; rd_open := v; wr_open := wr_open w;
     out := out w; child_calls := child_calls w; kills := kills w;
     calls := calls w; sched := sched w |}.

Definition set_wr_open (v : bool) (w : world) : world :=
  {| child_pid := child_pid w; signal_received := signal_received w; errno := errno w;
     kpid := kpid w; proc := proc w; pipe_data := pipe_data w;
     child_wr := child_wr w; rd_open := rd_open w; wr_open := v;
     out := out w; child_calls := child_calls w; kills := kills w;
     calls := calls w; sched := sched w |}.

Definition set_out (v : list byte) (w : world) : world :=
  {| child_pid := child_pid w; signal_received := signal_received w; errno := errno w;
     kpid := kpid w; proc := proc w; pipe_data := pipe_data w;
     child_wr := child_wr w; rd_open := rd_open w; wr_open := wr_open w;
     out := v; child_calls := child_calls w; kills := kills w;
     calls := calls w; sched := sched w |}.

Definition set_child_calls (v : list call) (w : world) : world :=
  {| child_pid := child_pid w; signal_received := signal_received w; errno := errno w;
     kpid := kpid w; proc := proc w; pipe_data := pipe_data w;
     child_wr := child_wr w; rd_open := rd_open w; wr_open := wr_open w;
     out := out w; child_calls := v; kills := kills w;
     calls := calls w; sched := sched w |}.

Definition set_kills (v : list (Z * Z)) (w : world) : world :=
  {| child_pid := child_pid w; signal_received := signal_received w; errno := errno w;
     kpid := kpid w; proc := proc w; pipe_data := pipe_data w;
     child_wr := child_wr w; rd_open := rd_open w; wr_open := wr_open w;
     out := out w; child_calls := child_calls w; kills := v;
     calls := calls w; sched := sched w |}.

Definition set_calls (v : list call) (w : world) : world :=
  {| child_pid := child_pid w; signal_received := signal_received w; errno := errno w;
     kpid := kpid w; proc := proc w; pipe_data := pipe_data w;
     child_wr := child_wr w; rd_open := rd_open w; wr_open := wr_open w;
     out := out w; child_calls := child_calls w; kills := kills w;
     calls := v; sched := sched w |}.

Definition set_sched (v : list slot) (w : world) : world :=
  {| child_pid := child_pid w; signal_received := signal_received w; errno := errno w;
     kpid := kpid w; proc := proc w; pipe_data := pipe_data w;
     child_wr := child_wr w; rd_open := rd_open w; wr_open := wr_open w;
     out := out w; child_calls := child_calls w; kills := kills w;
     calls := calls w; sched := v |}.

(** ** The monad of the code: state passing over [world] *)

Definition M := state world.

Definition rd {A} (f : world -> A) : M A := mkState (fun w => (f w, w)).
Definition upd (f : world -> world) : M unit := mkState (fun w => (tt, f w)).

(** A call that fails returns -1 and leaves the error number in [errno]. *)
Definition fails (e : Z) : M Z := upd (set_errno e) ;; ret (-1).

(** ** The kernel *)

(** [kill(pid, sig)].  It succeeds as long as the child is in the process
    table, zombie or not.  What the signal does to the child is the
    child's business and shows up later as schedule events. *)
Definition kill (pid sig : Z) : M Z :=
  upd (fun w => set_kills (kills w ++ [(pid, sig)]) w) ;;
  p <- rd proc ;;
  k <- rd kpid ;;
  match p with
  | Some _ => if pid =? Z.pos k then ret 0 else fails ESRCH
  | None => fails ESRCH
  end.

(** ** [signal_handler] and [stopJvm] *)

Definition signal_handler (sig : Z) : M unit :=
  upd (set_signal_received sig) ;;
  cp <- rd child_pid ;;
  if cp >? 0 then
    _ <- kill cp SIGTERM ;;
    ret tt
  else ret tt.

Definition stopJvm : M Z :=
  cp <- rd child_pid ;;
  if cp >? 0 then
    r <- kill cp SIGTERM ;;
    if r =? 0 then
      upd (set_signal_received SIGTERM) ;;
      ret 0
    else ret (-1)
  else ret (-1).

(** ** The environment's turn *)

(** One event.  A signal runs [signal_handler]; a stop request runs
    [stopJvm] (its result goes to the other thread); the child's actions
    change the pipe and the process table. *)
Definition occur (e : event) : M unit :=
  match e with
  | Deliver s => signal_handler (signum s)
  | StopRequest => _ <- stopJvm ;; ret tt
  | ChildWrites bs =>
      upd (fun w => if child_wr w
                    then set_pipe_data (pipe_data w ++ bs) w else w)
  | ChildCloses => upd (set_child_wr false)
  | ChildDies st =>
      upd (fun w => match proc w with
                    | Some Running => set_proc (Some (Zombie st)) w
                    | _ => w
                    end)
  end.

Fixpoint occur_all (es : list event) : M unit :=
  match es with
  | [] => ret tt
  | e :: rest => occur e ;; occur_all rest
  end.

(** The next slot of the schedule is consumed: its events occur, its
    outcome is handed to the call.  Past the end of the schedule the
    environment is quiet. *)
Definition turn : M outcome :=
  s <- rd sched ;;
  match s with
  | [] => ret Normal
  | sl :: rest =>
      upd (set_sched rest) ;; occur_all (events sl) ;; ret (result sl)
  end.

(** The call [c] is recorded. *)
Definition logged (c : call) (w : world) : world :=
  set_calls (calls w ++ [c]) w.

Definition log (c : call) : M unit := upd (logged c).

(** A system call of the supervising thread: it is recorded, the
    environment takes its turn, and the kernel answers. *)
Definition sys {A} (c : call) (k : outcome -> M A) : M A :=
  log c ;; o <- turn ;; k o.

(** ** The system calls [jre_launcher.cpp] makes *)

Definition sigaction (sig : Z) (h : disposition) : M Z :=
  sys (Sigaction sig h)
      (fun o => match o with Fail e => fails e | _ => ret 0 end).

Definition pipe : M Z :=
  sys Pipe
      (fun o => match o with
                | Fail e => fails e
                | _ => upd (set_rd_open true) ;; upd (set_wr_open true) ;;
                       upd (set_pipe_data []) ;; upd (set_child_wr false) ;;
                       ret 0
                end).

Definition fcntl_getfl (f : fd) : M Z :=
  sys (FcntlGetfl f)
      (fun o => match o with Fail e => fails e | _ => ret 0 end).

Definition fcntl_setfl (f : fd) (flags : Z) : M Z :=
  sys (FcntlSetfl f flags)
      (fun o => match o with Fail e => fails e | _ => ret 0 end).

(** [fork()] as the parent sees it: -1, or the child's pid.  [in_child] is
    what the new process runs with the return value 0; it inherits the
    pipe's write end. *)
Definition fork (in_child : list call) : M Z :=
  sys Fork
      (fun o => match o with
                | Fail e => fails e
                | _ => k <- rd kpid ;;
                       wo <- rd wr_open ;;
                       upd (set_proc (Some Running)) ;;
                       upd (set_child_wr wo) ;;
                       upd (set_child_calls in_child) ;;
                       ret (Z.pos k)
                end).

Definition close (f : fd) : M Z :=
  sys (Close f)
      (fun _ => match f with
                | PipeRd => upd (set_rd_open false)
                | PipeWr => upd (set_wr_open false)
                | _ => ret tt
                end ;; ret 0).

(** Somebody can still write to the pipe. *)
Definition writers (w : world) : bool := child_wr w || wr_open w.

Definition nonempty {A} (l : list A) : bool :=
  match l with [] => false | _ => true end.

(** [poll(fds, 1, timeout)] on the read end; the result is the return
    value and [fds[0].revents].  Data makes the requested [POLLIN] ready; a
    pipe without writers reports [POLLHUP], with or without data left in
    it; if neither holds when the environment's turn is over, the wait has
    timed out. *)
Definition poll (f : fd) (ev timeout : Z) : M (Z * Z) :=
  sys (Poll f ev timeout)
      (fun o => match o with
                | Fail e => r <- fails e ;; ret (r, 0)
                | _ => d <- rd pipe_data ;;
                       ws <- rd writers ;;
                       let revents :=
                         Z.lor (if nonempty d then Z.land ev POLLIN else 0)
                               (if ws then 0 else POLLHUP) in
                       ret (if revents =? 0 then 0 else 1, revents)
                end).

(** [read(fd, buffer, count)] on the non-blocking read end; the result is
    the return value and the bytes put into the buffer. *)
Definition read (f : fd) (count : nat) : M (Z * list byte) :=
  sys (Read f count)
      (fun o => match o with
                | Fail e => r <- fails e ;; ret (r, [])
                | _ => d <- rd pipe_data ;;
                       ws <- rd writers ;;
                       match d with
                       | [] => if ws then r <- fails EAGAIN ;; ret (r, [])
                               else ret (0, [])
                       | _ => upd (set_pipe_data (skipn count d)) ;;
                              ret (Z.of_nat (List.length (firstn count d)),
                                   firstn count d)
                       end
                end).

(** [write(STDOUT_FILENO, buf, n)]. *)
Definition write (f : fd) (buf : list byte) : M Z :=
  sys (Write f buf)
      (fun o => match o with
                | Fail e => fails e
                | Partial k =>
                    upd (fun w => set_out (out w ++ firstn k buf) w) ;;
                    ret (Z.of_nat (List.length (firstn k buf)))
                | Normal =>
                    upd (fun w => set_out (out w ++ buf) w) ;;
                    ret (Z.of_nat (List.length buf))
                end).

Definition usleep (usec : Z) : M Z :=
  sys (Usleep usec) (fun _ => ret 0).

(** [kill] called from [launchJvm] itself. *)
Definition sys_kill (pid sig : Z) : M Z :=
  sys (Kill pid sig) (fun _ => kill pid sig).

(** The status word [waitpid] stores, and the macros that read it. *)
Definition wait_status (st : wstatus) : Z :=
  match st with
  | Exited c => Z.shiftl (Z.land c 255) 8
  | Signaled s => Z.land s 127
  end.

Definition WTERMSIG (status : Z) : Z := Z.land status 127.
Definition WIFSIGNALED (status : Z) : bool := 2 <=? WTERMSIG (status + 1).
Definition WEXITSTATUS (status : Z) : Z := Z.shiftr (Z.land status 65280) 8.

(** What [waitpid] answers once it can: nothing to wait for, or the zombie
    is reaped, which removes it from the process table.  The result is the
    return value and [status]. *)
Definition collect (pid : Z) (st : option wstatus) : M (Z * Z) :=
  match st with
  | None => r <- fails ECHILD ;; ret (r, 0)
  | Some s => upd (set_proc None) ;; ret (pid, wait_status s)
  end.

(** [waitpid(pid, &status, WNOHANG)]: 0 while the child runs. *)
Definition waitpid_nohang (pid : Z) : M (Z * Z) :=
  sys (Waitpid pid WNOHANG)
      (fun o => match o with
                | Fail e => r <- fails e ;; ret (r, 0)
                | _ => p <- rd proc ;;
                       k <- rd kpid ;;
                       if pid =? Z.pos k then
                         match p with
                         | Some Running => ret (0, 0)
                         | Some (Zombie st) => collect pid (Some st)
                         | None => collect pid None
                         end
                       else collect pid None
                end).

(** [waitpid(pid, &status, 0)] after one more turn of the environment:
    the call fails, or finds no child, or reaps the zombie, or, while the
    child runs, stays blocked ([go_on]). *)
Definition block_step (pid : Z) (w1 : world) (o : outcome)
           (go_on : option ((Z * Z) * world)) : option ((Z * Z) * world) :=
  match o with
  | Fail e => Some (runState (r <- fails e ;; ret (r, 0)) w1)
  | _ =>
      if pid =? Z.pos (kpid w1) then
        match proc w1 with
        | Some Running => go_on
        | Some (Zombie st) => Some (runState (collect pid (Some st)) w1)
        | None => Some (runState (collect pid None) w1)
        end
      else Some (runState (collect pid None) w1)
  end.

(** The blocked call, turn after turn.  [None] means it is still blocked
    after [n] more turns. *)
Fixpoint block_until_exit (n : nat) (pid : Z) (w : world)
  : option ((Z * Z) * world) :=
  let (o, w1) := runState turn w in
  block_step pid w1 o
             (match n with
              | O => None
              | S m => block_until_exit m pid w1
              end).

(** The call blocks for ever when the schedule ends with the child still
    running, since the environment is quiet from then on. *)
Definition waitpid_block (pid : Z) (w : world) : option ((Z * Z) * world) :=
  let w0 := snd (runState (log (Waitpid pid 0)) w) in
  block_until_exit (List.length (sched w0)) pid w0.

(** ** [setup_signal_handlers] *)

Definition setup_signal_handlers : M Z :=
  r <- sigaction SIGINT Handler ;;
  if r =? -1 then ret (-1) else
  r <- sigaction SIGTERM Handler ;;
  if r =? -1 then ret (-1) else
  r <- sigaction SIGPIPE Ignore ;;
  if r =? -1 then ret (-1) else
  ret 0.

(** ** [launchJvm] *)

(** The branch [pid == 0]: what the child does up to [execvp]. *)
Definition child_branch (argv : list string) : list call :=
  [ Sigaction SIGINT Default; Sigaction SIGTERM Default;
    Close PipeRd; Dup2 PipeWr Stdout; Dup2 PipeWr Stderr; Close PipeWr;
    Execvp (hd_error argv) argv ].

(** How one pass through the body of [while (true)] ends. *)
Inductive ctl := Break | Continue.

(** [write(STDOUT_FILENO, buffer, bytes_read)] and the test of its
    result; [Continue] means that control goes on below the [if]. *)
Definition deliver (buffer : list byte) : M ctl :=
  r <- write Stdout buffer ;;
  if r =? -1 then
    e <- rd errno ;;
    if e =? EPIPE then ret Break else ret Continue
  else ret Continue.

(** The [if (fds[0].revents & POLLIN)] block; [Continue] here means that
    control falls through to the hang-up test below it. *)
Definition forward (revents : Z) : M ctl :=
  if negb (Z.land revents POLLIN =? 0) then
    '(bytes_read, buffer) <- read PipeRd buffer_size ;;
    if bytes_read >? 0 then deliver buffer
    else if bytes_read =? 0 then ret Break
    else if bytes_read =? -1 then
      e <- rd errno ;;
      if negb (e =? EAGAIN) && negb (e =? EWOULDBLOCK) then ret Break
      else ret Continue
    else ret Continue
  else ret Continue.

(** One pass through the loop body. *)
Definition iteration (pid : Z) : M ctl :=
  '(r, revents) <- poll PipeRd POLLIN 100 ;;
  sr <- rd signal_received ;;
  if negb (sr =? 0) then ret Break else
  if r =? -1 then
    e <- rd errno ;;
    if e =? EINTR then
      sr' <- rd signal_received ;;
      if negb (sr' =? 0) then ret Break else ret Continue
    else ret Break
  else if r =? 0 then
    '(result, _) <- waitpid_nohang pid ;;
    if result =? pid then ret Break
    else if result =? -1 then ret Break
    else ret Continue
  else
    c <- forward revents ;;
    match c with
    | Break => ret Break
    | Continue =>
        if negb (Z.land revents (Z.lor POLLERR POLLHUP) =? 0) then ret Break
        else ret Continue
    end.

(** [while (true)]: [None] when the loop is still running after [fuel]
    passes. *)
Fixpoint supervise (fuel : nat) (pid : Z) (w : world) : option world :=
  match fuel with
  | O => None
  | S n =>
      match runState (iteration pid) w with
      | (Break, w1) => Some w1
      | (Continue, w1) => supervise n pid w1
      end
  end.

Definition wait_timeout : Z := 5000.

(** The passes the loop below can still make: the measure that makes it
    terminate. *)
Definition remaining (waited : Z) : nat :=
  Z.to_nat ((wait_timeout - waited + 99) / 100).

Lemma remaining_decreases waited :
  waited < wait_timeout -> (remaining (waited + 100) < remaining waited)%nat.
Proof.
  unfold remaining, wait_timeout. intros H.
  replace (5000 - (waited + 100) + 99) with ((5000 - waited + 99) + (-1) * 100) by lia.
  rewrite Z.div_add by lia.
  assert (1 <= (5000 - waited + 99) / 100) by (apply Z.div_le_lower_bound; lia).
  lia.
Qed.

(** [while (waited < wait_timeout)] after the SIGKILL; the result is the
    final value of [waited]. *)
Equations? wait_killed (pid waited : Z) (w : world) : Z * world
  by wf (remaining waited) lt :=
  wait_killed pid waited w with Z_lt_dec waited wait_timeout := {
    | left _ =>
        let rw := runState (waitpid_nohang pid) w in
        if fst (fst rw) =? pid then (waited, snd rw)
        else if fst (fst rw) =? -1 then (waited, snd rw)
        else wait_killed pid (waited + 100)
                         (snd (runState (usleep 100000) (snd rw)))
    | right _ => (waited, w) }.
Proof. apply remaining_decreases; assumption. Qed.

(** The branch [if (signal_received)] after the loop. *)
Definition shutdown (pid : Z) : M Z :=
  _ <- sys_kill pid SIGKILL ;;
  _ <- mkState (wait_killed pid 0) ;;
  upd (set_child_pid (-1)) ;;
  ret (-1).

(** The rest of the function, when the flag is not set: the blocking
    [waitpid] and the decoding of the status.  [None]: the wait never
    returns. *)
Definition reap (pid : Z) (w : world) : option (Z * world) :=
  match waitpid_block pid w with
  | None => None
  | Some ((r, status), w1) =>
      if r =? -1 then Some (-1, set_child_pid (-1) w1)
      else
        let w2 := set_child_pid (-1) w1 in
        if WIFSIGNALED status then Some (-1, w2)
        else Some (WEXITSTATUS status, w2)
  end.

(** From [close(pipefd[0])] to the end of [launchJvm]. *)
Definition after_loop (pid : Z) (w : world) : option (Z * world) :=
  let w1 := snd (runState (close PipeRd) w) in
  if negb (signal_received w1 =? 0) then Some (runState (shutdown pid) w1)
  else reap pid w1.

(** The parent's branch of the [fork]. *)
Definition parent (fuel : nat) (pid : Z) (w : world) : option (Z * world) :=
  let w1 := set_child_pid pid w in
  let w2 := snd (runState (close PipeWr) w1) in
  match supervise fuel pid w2 with
  | None => None
  | Some w3 => after_loop pid w3
  end.

(** [launchJvm] from [int pipefd[2]] on.  The branch [pid == 0] is the
    child's; it ends in [execvp] or [exit] and never returns here. *)
Definition launch_body (fuel : nat) (argv : list string) (w : world)
  : option (Z * world) :=
  let (r, w) := runState pipe w in
  if r =? -1 then Some (-1, w) else
  let (flags, w) := runState (fcntl_getfl PipeRd) w in
  let (_, w) := runState (fcntl_setfl PipeRd (Z.lor flags O_NONBLOCK)) w in
  let (pid, w) := runState (fork (child_branch argv)) w in
  if pid =? -1 then
    let (_, w) := runState (close PipeRd) w in
    let (_, w) := runState (close PipeWr) w in
    Some (-1, w)
  else if pid =? 0 then None
  else parent fuel pid w.

(** [launchJvm(argv)] in the supervisor.  [None]: it has not returned
    (the loop needs more than [fuel] passes, or the final wait blocks for
    ever). *)
Definition launchJvm (fuel : nat) (argv : list string) (w : world)
  : option (Z * world) :=
  let (r, w) := runState setup_signal_handlers w in
  if r =? -1 then Some (-1, w) else
  let w := set_signal_received 0 w in
  let w := set_child_pid (-1) w in
  launch_body fuel argv w.

(** ** The JNI entry point [nativeLaunchJvm] *)

(** An element of the [jobjectArray]: a null reference, or a string with
    the answer of [GetStringUTFChars] for it ([None] is a null answer). *)
Inductive jelement :=
| JNull
| JString (utf : option string).

(** The [for] loop that fills [args]; [None] is its [return -1]. *)
Fixpoint fill_args (jargs : list jelement) (args : list string)
  : option (list string) :=
  match jargs with
  | [] => Some args
  | JNull :: rest => fill_args rest (args ++ [""%string])
  | JString None :: _ => None
  | JString (Some utf_chars) :: rest => fill_args rest (args ++ [utf_chars])
  end.

Definition nativeLaunchJvm (fuel : nat) (jargs : list jelement) (w : world)
  : option (Z * world) :=
  let argc := Z.of_nat (List.length jargs) in
  if argc <=? 0 then Some (-1, w) else
  match fill_args jargs [] with
  | None => Some (-1, w)
  | Some args => launchJvm fuel args w
  end.

(** [nativeStopJvm] only logs what [stopJvm] returned. *)
Definition nativeStopJvm : M unit :=
  _ <- stopJvm ;; ret tt.

(** * [android_log.hpp]: the logger *)

(** Every function of the header ends in one or two calls of
    [__android_log_print(level, LOG_TAG, "%s", text)].  A call is modelled
    by the record of its arguments, and a logging function by the list of
    the calls it makes, in order.  A value written with [operator<<] is
    given by the text it produces. *)
Module AndroidLog.

Local Open Scope string_scope.

(** Priorities of [android/log.h]. *)
Definition ANDROID_LOG_VERBOSE : Z := 2.
Definition ANDROID_LOG_DEBUG : Z := 3.
Definition ANDROID_LOG_INFO : Z := 4.
Definition ANDROID_LOG_WARN : Z := 5.
Definition ANDROID_LOG_ERROR : Z := 6.

Definition LOG_TAG : string := "NativeJavaLauncher".

(** [enum class LogType : uint8_t], by the value of the underlying type.
    An object of the type holds an enumerator or any other value of
    [uint8_t] (a [static_cast] gives one); the [default:] branches below
    are for those.  Numbers from 256 on are values of no object; the
    functions take them as they take 6 to 255. *)
Definition LogType := N.

Definition DEBUG : LogType := 0%N.
Definition INFO : LogType := 1%N.
Definition WARNING : LogType := 2%N.
Definition ERROR : LogType := 3%N.
Definition SUCCESS : LogType := 4%N.
Definition VERBOSE : LogType := 5%N.

Definition getAndroidLogLevel (type : LogType) : Z :=
  if N.eqb type DEBUG then ANDROID_LOG_DEBUG
  else if N.eqb type INFO then ANDROID_LOG_INFO
  else if N.eqb type WARNING then ANDROID_LOG_WARN
  else if N.eqb type ERROR then ANDROID_LOG_ERROR
  else if N.eqb type VERBOSE then ANDROID_LOG_VERBOSE
  else if N.eqb type SUCCESS then ANDROID_LOG_INFO
  else ANDROID_LOG_INFO.

Definition getLogTypeName (type : LogType) : string :=
  if N.eqb type DEBUG then "DEBUG"
  else if N.eqb type INFO then "INFO"
  else if N.eqb type WARNING then "WARNING"
  else if N.eqb type ERROR then "ERROR"
  else if N.eqb type SUCCESS then "SUCCESS"
  else if N.eqb type VERBOSE then "VERBOSE"
  else "INFO".

(** One call of [__android_log_print]. *)
Record entry := { priority : Z; tag : string; text : string }.

(** What ["%s"] prints of [s.c_str()]: the characters before the first
    NUL. *)
Fixpoint c_str (s : string) : string :=
  match s with
  | EmptyString => EmptyString
  | String c rest =>
      if Ascii.eqb c Ascii.zero then EmptyString else String c (c_str rest)
  end.

(** The literal in front of a SUCCESS message: U+2705 in UTF-8, and a
    space. *)
Definition check_mark : string :=
  String "226"%char (String "156"%char (String "133"%char " ")).

Definition log_output (type : LogType) (message : string) : list entry :=
  let android_level := getAndroidLogLevel type in
  let type_name := getLogTypeName type in
  let formatted_message :=
    if N.eqb type SUCCESS then check_mark ++ message
    else if negb (N.eqb type INFO) then "[" ++ type_name ++ "] " ++ message
    else message in
  [ {| priority := android_level; tag := LOG_TAG;
       text := c_str formatted_message |} ].

(** [print_all]: the arguments are written to the stream one after the
    other. *)
Definition print_all (type : LogType) (args : list string) : list entry :=
  log_output type (fold_left append args "").

(** [println_all]: [print_all], then [log_output(type, "")]. *)
Definition println_all (type : LogType) (args : list string) : list entry :=
  (print_all type args ++ log_output type "")%list.

(** The lambda [add_with_sep] of [print_separated], on the stream and its
    flag [first]. *)
Definition add_with_sep (separator : string) (st : string * bool)
           (item : string) : string * bool :=
  let (oss, first) := st in
  ((if first then oss else oss ++ separator) ++ item, false).

Definition print_separated (type : LogType) (separator : string)
           (args : list string) : list entry :=
  log_output type (fst (fold_left (add_with_sep separator) args ("", true))).

(** [print_container]: the range-[for] loop has the body of
    [add_with_sep] with the separator [", "]. *)
Definition print_container (type : LogType) (container : list string)
           (name : string) : list entry :=
  let oss := name ++ ": [" in
  let oss := fst (fold_left (add_with_sep ", ") container (oss, true)) in
  log_output type (oss ++ "]").

(** [print] and [println].  [std::vformat] is the library's; [None] is
    the exception it throws for a format string it rejects. *)
Section Format.
Variable arg : Type.
Variable vformat : string -> list arg -> option string.

Definition print (type : LogType) (fmt : string) (args : list arg)
  : option (list entry) :=
  match args with
  | [] => Some (log_output type fmt)
  | _ => option_map (log_output type) (vformat fmt args)
  end.

Definition println (type : LogType) (fmt : string) (args : list arg)
  : option (list entry) :=
  print type (fmt ++ String "010"%char "") args.
End Format.

End AndroidLog.

(** * Vocabulary of the statements *)

(** ** The schedule seen from a call *)

(** The fate of the next system call. *)
Definition fate (w : world) : outcome :=
  match sched w with
  | [] => Normal
  | s :: _ => result s
  end.

(** The fate of the [n]-th system call from now. *)
Definition nth_fate (n : nat) (w : world) : outcome :=
  match nth_error (sched w) n with
  | Some s => result s
  | None => Normal
  end.

Definition failing (o : outcome) : bool :=
  match o with
  | Fail _ => true
  | _ => false
  end.

(** The state in which the kernel answers the call [c]. *)
Definition turned (c : call) (w : world) : world :=
  snd (runState turn (logged c w)).

(** ** Traces and readings *)

(** [k] rounds of "look for the child, sleep 100 ms", then [last]. *)
Fixpoint polling (pid : Z) (k : nat) (last : list call) : list call :=
  match k with
  | O => last
  | S n => Waitpid pid WNOHANG :: Usleep 100000 :: polling pid n last
  end.

(** The argument an array element becomes. *)
Definition argument (e : jelement) : string :=
  match e with
  | JNull => ""%string
  | JString (Some utf_chars) => utf_chars
  | JString None => ""%string
  end.

(** A step of the flag that leaves it as it is, or takes it from "not
    requested" (0) to a signal number. *)
Definition unchanged_or_raised (before after : Z) : Prop :=
  after = before \/ (before = 0 /\ after <> 0).

Definition EIO : Z := 5.

(** ** Concrete worlds *)

Definition eventless (o : outcome) : slot := {| events := []; result := o |}.

Definition during (es : list event) : slot :=
  {| events := es; result := Normal |}.

(** The supervisor before any launch, with the schedule [s] ahead. *)
Definition boot (s : list slot) : world :=
  {| child_pid := -1; signal_received := 0; errno := 0; kpid := 1234;
     proc := None; pipe_data := []; child_wr := false; rd_open := false;
     wr_open := false; out := []; child_calls := []; kills := [];
     calls := []; sched := s |}.

(** The first eight calls of a launch without incident: three
    [sigaction], [pipe], two [fcntl], [fork], and the parent's
    [close(pipefd[1])]. *)
Definition uneventful_start : list slot := repeat (eventless Normal) 8.

Definition hello : list byte := ["h"; "e"; "l"; "l"; "o"; "010"]%byte.

(** [/bin/echo hello]: the child prints its line and exits with status 0
    before the first [poll] of the loop returns. *)
Definition echo_hello : world :=
  boot (uneventful_start ++
        [ during [ChildWrites hello; ChildCloses; ChildDies (Exited 0)] ]).

(** [sh -c "exit 7"]. *)
Definition exit_seven : world :=
  boot (uneventful_start ++ [ during [ChildCloses; ChildDies (Exited 7)] ]).

(** [sleep 100], and [stopJvm] called from another thread during the
    first [poll]; the child ignores every signal. *)
Definition sleep_stopped : world :=
  boot (uneventful_start ++ [ during [StopRequest] ]).

(** A launch in which [fork] fails: seven calls, the seventh refused
    with EAGAIN. *)
Definition no_more_processes : world :=
  boot (repeat (eventless Normal) 6 ++ [eventless (Fail EAGAIN)]).

(** SIGINT has been recorded while the child runs; the child ignores the
    SIGTERM it was sent. *)
Definition interrupted : world :=
  {| child_pid := 1234; signal_received := SIGINT; errno := 0; kpid := 1234;
     proc := Some Running; pipe_data := []; child_wr := true;
     rd_open := true; wr_open := false; out := []; child_calls := [];
     kills := [(1234, SIGTERM)]; calls := []; sched := [] |}.

(** [sh -c "sleep 5 & exit 7"]: the shell starts a background process,
    which keeps the pipe open, and exits at once with status 7.  Nothing
    is printed, so the first [poll] of the loop times out. *)
Definition exit_seen_by_tick : world :=
  boot (uneventful_start ++ [ during [ChildDies (Exited 7)] ]).

(** A line of 1025 bytes: 1024 times [a], then a newline. *)
Definition long_line : list byte := repeat "a"%byte 1024 ++ ["010"%byte].

(** The child prints [long_line] and exits with status 0 before the
    first [poll] of the loop returns. *)
Definition quick_printer : world :=
  boot (uneventful_start ++
        [ during [ChildWrites long_line; ChildCloses; ChildDies (Exited 0)] ]).

(** The loop in the middle of a launch: the child has printed a line,
    and the supervisor's standard output is about to refuse a write with
    EIO. *)
Definition stdout_trouble : world :=
  {| child_pid := 1234; signal_received := 0; errno := 0; kpid := 1234;
     proc := Some Running; pipe_data := hello;
     child_wr := true; rd_open := true; wr_open := false; out := [];
     child_calls := child_branch ["/bin/echo"; "hello"]%string;
     kills := []; calls := [];
     sched := [eventless Normal; eventless Normal; eventless (Fail EIO)] |}.

(** * Properties *)

Lemma run_bind {A B} (m : M A) (f : A -> M B) w :
  runState (bind m f) w =
  runState (f (fst (runState m w))) (snd (runState m w)).
Proof. simpl. destruct (runState m w). reflexivity. Qed.

(** ** The launches of the specification's scenarios *)

Example echo_hello_run :
  exists w',
    launchJvm 1 ["/bin/echo"; "hello"]%string echo_hello = Some (0, w') /\
    out w' = hello /\ child_pid w' = -1 /\ proc w' = None.
Proof. eexists. split; [vm_compute; reflexivity | repeat split]. Qed.

Example exit_seven_run :
  exists w',
    launchJvm 1 ["/bin/sh"; "-c"; "exit 7"]%string exit_seven = Some (7, w') /\
    out w' = [] /\ child_pid w' = -1 /\ proc w' = None.
Proof. eexists. split; [vm_compute; reflexivity | repeat split]. Qed.

Example sleep_stopped_run :
  exists w',
    launchJvm 1 ["/bin/sleep"; "100"]%string sleep_stopped = Some (-1, w') /\
    kills w' = [(1234, SIGTERM); (1234, SIGKILL)] /\
    signal_received w' = SIGTERM /\ child_pid w' = -1 /\
    proc w' = Some Running.
Proof. eexists. split; [vm_compute; reflexivity | repeat split]. Qed.

(** ** Relations every step of a computation keeps *)

Section Keeps.
Variable R : world -> world -> Prop.
Hypothesis R_refl : forall w, R w w.
Hypothesis R_trans : forall w1 w2 w3, R w1 w2 -> R w2 w3 -> R w1 w3.

Definition keeps {A} (m : M A) : Prop :=
  forall w, R w (snd (runState m w)).

Lemma keeps_ret {A} (a : A) : keeps (ret a).
Proof. intro w. apply R_refl. Qed.

Lemma keeps_rd {A} (f : world -> A) : keeps (rd f).
Proof. intro w. apply R_refl. Qed.

Lemma keeps_bind {A B} (m : M A) (f : A -> M B) :
  keeps m -> (forall a, keeps (f a)) -> keeps (bind m f).
Proof.
  intros Hm Hf w. rewrite run_bind.
  eapply R_trans; [apply Hm | apply Hf].
Qed.

Lemma keeps_upd (f : world -> world) :
  (forall w, R w (f w)) -> keeps (upd f).
Proof. intros H w. apply H. Qed.
End Keeps.

(** Steps that leave [child_pid] and the pid the kernel hands out alone
    and do not clear a flag that is set. *)
Record frame (w w' : world) : Prop := {
  fr_child_pid : child_pid w' = child_pid w;
  fr_kpid : kpid w' = kpid w;
  fr_flag : signal_received w <> 0 -> signal_received w' <> 0
}.

(** Steps in which the supervising thread makes no system call. *)
Definition same_calls (w w' : world) : Prop := calls w' = calls w.

(** Steps that create no child. *)
Definition childless (w w' : world) : Prop := proc w = None -> proc w' = None.

(** Steps that open and close no descriptor of the supervisor. *)
Definition same_fds (w w' : world) : Prop :=
  rd_open w' = rd_open w /\ wr_open w' = wr_open w.

(** Steps that take nothing from the schedule. *)
Definition same_sched (w w' : world) : Prop := sched w' = sched w.

(** Steps that write nothing to the supervisor's standard output. *)
Definition same_out (w w' : world) : Prop := out w' = out w.

Lemma frame_refl w : frame w w.
Proof. split; auto. Qed.

Lemma frame_trans w1 w2 w3 : frame w1 w2 -> frame w2 w3 -> frame w1 w3.
Proof. intros [a b c] [a' b' c']. split; try congruence; auto. Qed.

Lemma same_calls_refl w : same_calls w w.
Proof. reflexivity. Qed.

Lemma same_calls_trans w1 w2 w3 :
  same_calls w1 w2 -> same_calls w2 w3 -> same_calls w1 w3.
Proof. unfold same_calls. congruence. Qed.

Lemma childless_refl w : childless w w.
Proof. intro H; exact H. Qed.

Lemma childless_trans w1 w2 w3 :
  childless w1 w2 -> childless w2 w3 -> childless w1 w3.
Proof. unfold childless. auto. Qed.

Lemma same_fds_refl w : same_fds w w.
Proof. split; reflexivity. Qed.

Lemma same_fds_trans w1 w2 w3 :
  same_fds w1 w2 -> same_fds w2 w3 -> same_fds w1 w3.
Proof. intros [a b] [a' b']. split; congruence. Qed.

Lemma same_sched_refl w : same_sched w w.
Proof. reflexivity. Qed.

Lemma same_sched_trans w1 w2 w3 :
  same_sched w1 w2 -> same_sched w2 w3 -> same_sched w1 w3.
Proof. unfold same_sched. congruence. Qed.

Lemma same_out_refl w : same_out w w.
Proof. reflexivity. Qed.

Lemma same_out_trans w1 w2 w3 :
  same_out w1 w2 -> same_out w2 w3 -> same_out w1 w3.
Proof. unfold same_out. congruence. Qed.

(** What the events of the environment keep: all of the above. *)
Record quiet_rel (w w' : world) : Prop := {
  q_frame : frame w w';
  q_calls : same_calls w w';
  q_childless : childless w w';
  q_fds : same_fds w w';
  q_sched : same_sched w w';
  q_out : same_out w w'
}.

Lemma quiet_refl w : quiet_rel w w.
Proof.
  split; [apply frame_refl | reflexivity | apply childless_refl
         | apply same_fds_refl | reflexivity | reflexivity].
Qed.

Lemma quiet_trans w1 w2 w3 :
  quiet_rel w1 w2 -> quiet_rel w2 w3 -> quiet_rel w1 w3.
Proof.
  intros [a b c d e f] [a' b' c' d' e' f']. split.
  - eapply frame_trans; eassumption.
  - eapply same_calls_trans; eassumption.
  - eapply childless_trans; eassumption.
  - eapply same_fds_trans; eassumption.
  - eapply same_sched_trans; eassumption.
  - eapply same_out_trans; eassumption.
Qed.

(** What the kernel's answer to a call keeps: the call is already
    recorded and the environment has had its turn. *)
Record inner (w w' : world) : Prop := {
  in_frame : frame w w';
  in_calls : same_calls w w';
  in_sched : same_sched w w'
}.

Lemma inner_refl w : inner w w.
Proof. split; [apply frame_refl | reflexivity | reflexivity]. Qed.

Lemma inner_trans w1 w2 w3 : inner w1 w2 -> inner w2 w3 -> inner w1 w3.
Proof.
  intros [a b c] [a' b' c']. split.
  - eapply frame_trans; eassumption.
  - eapply same_calls_trans; eassumption.
  - eapply same_sched_trans; eassumption.
Qed.

Lemma keeps_weaken (R R' : world -> world -> Prop) {A} (m : M A) :
  (forall w w', R w w' -> R' w w') -> keeps R m -> keeps R' m.
Proof. intros H Hm w. apply H, Hm. Qed.

Lemma signum_nonzero s : signum s <> 0.
Proof. destruct s; discriminate. Qed.

Create HintDb keeps.
#[local] Hint Resolve frame_refl same_calls_refl childless_refl same_fds_refl
  same_sched_refl same_out_refl quiet_refl inner_refl : keeps.
#[local] Hint Resolve keeps_ret keeps_rd : keeps.
#[local] Hint Resolve signum_nonzero : keeps.
#[local] Hint Extern 1 (_ <> 0) => discriminate : keeps.

(** Goals left by an update of one field. *)
Ltac field_goal :=
  intros;
  repeat match goal with
         | |- quiet_rel _ _ => split
         | |- inner _ _ => split
         | |- frame _ _ => split
         | |- same_fds _ _ => split
         | |- same_calls _ _ => unfold same_calls
         | |- childless _ _ => unfold childless
         | |- same_sched _ _ => unfold same_sched
         | |- same_out _ _ => unfold same_out
         end;
  simpl;
  repeat match goal with
         | |- context [if ?b then _ else _] => destruct b eqn:?
         | |- context [match ?x with _ => _ end] => destruct x eqn:?
         end;
  simpl; auto with keeps; try congruence.

Ltac trans_goal :=
  first [exact quiet_trans | exact inner_trans
        | exact frame_trans | exact same_calls_trans
        | exact childless_trans | exact same_fds_trans
        | exact same_sched_trans | exact same_out_trans].

Ltac keeps_step :=
  match goal with
  | |- keeps _ (bind _ _) => apply keeps_bind; [trans_goal | | intro]
  | |- keeps _ (upd _) => apply keeps_upd; field_goal
  | |- keeps _ (fails _) => unfold fails
  | |- keeps _ (if ?b then _ else _) => destruct b
  | |- keeps _ (match ?x with _ => _ end) => destruct x
  | |- keeps _ _ => solve [auto with keeps]
  end.

Ltac keeps_tac := repeat keeps_step.

(** The same for a relation given by its transitivity [T], with the
    tactic [G] for the single steps. *)
Ltac keeps_with T G :=
  repeat match goal with
         | |- keeps _ (bind _ _) => apply keeps_bind; [exact T | | intro]
         | |- keeps _ (upd _) => apply keeps_upd; G
         | |- keeps _ (ret _) => apply keeps_ret; G
         | |- keeps _ (rd _) => apply keeps_rd; G
         | |- keeps _ (fails _) => unfold fails
         | |- keeps _ (if ?b then _ else _) => destruct b
         | |- keeps _ (match ?x with _ => _ end) => destruct x
         | |- keeps _ _ => solve [auto with keeps]
         end.

Lemma quiet_kill pid sig : keeps quiet_rel (kill pid sig).
Proof. unfold kill. keeps_tac. Qed.

#[local] Hint Resolve quiet_kill : keeps.

Lemma quiet_signal_handler s : keeps quiet_rel (signal_handler (signum s)).
Proof. unfold signal_handler. keeps_tac. Qed.

Lemma quiet_stopJvm : keeps quiet_rel stopJvm.
Proof. unfold stopJvm. keeps_tac. Qed.

#[local] Hint Resolve quiet_signal_handler quiet_stopJvm : keeps.

Lemma quiet_occur e : keeps quiet_rel (occur e).
Proof.
  destruct e; unfold occur; keeps_tac.
Qed.

#[local] Hint Resolve quiet_occur : keeps.

Lemma quiet_occur_all es : keeps quiet_rel (occur_all es).
Proof.
  induction es as [|e es IH]; cbn [occur_all]; keeps_tac.
Qed.

#[local] Hint Resolve quiet_occur_all : keeps.

(** What holds of the events holds of each part. *)
Lemma quiet_inner w w' : quiet_rel w w' -> inner w w'.
Proof. intros [a b c d e f]. split; assumption. Qed.

#[local] Hint Extern 3 (keeps frame _) =>
  apply (@keeps_weaken quiet_rel frame _ _ q_frame) : keeps.
#[local] Hint Extern 3 (keeps same_calls _) =>
  apply (@keeps_weaken quiet_rel same_calls _ _ q_calls) : keeps.
#[local] Hint Extern 3 (keeps childless _) =>
  apply (@keeps_weaken quiet_rel childless _ _ q_childless) : keeps.
#[local] Hint Extern 3 (keeps same_fds _) =>
  apply (@keeps_weaken quiet_rel same_fds _ _ q_fds) : keeps.
#[local] Hint Extern 3 (keeps same_sched _) =>
  apply (@keeps_weaken quiet_rel same_sched _ _ q_sched) : keeps.
#[local] Hint Extern 3 (keeps same_out _) =>
  apply (@keeps_weaken quiet_rel same_out _ _ q_out) : keeps.
#[local] Hint Extern 3 (keeps inner _) =>
  apply (@keeps_weaken quiet_rel inner _ _ quiet_inner) : keeps.

(** ** The environment's turn and the shape of a system call *)

Lemma turn_frame : keeps frame turn.
Proof. unfold turn. keeps_tac. Qed.

Lemma turn_calls : keeps same_calls turn.
Proof. unfold turn. keeps_tac. Qed.

Lemma turn_childless : keeps childless turn.
Proof. unfold turn. keeps_tac. Qed.

Lemma turn_fds : keeps same_fds turn.
Proof. unfold turn. keeps_tac. Qed.

Lemma turn_out : keeps same_out turn.
Proof. unfold turn. keeps_tac. Qed.

#[local] Hint Resolve turn_frame turn_calls turn_childless turn_fds
  turn_out : keeps.

Lemma run_turn w :
  runState turn w =
  match sched w with
  | [] => (Normal, w)
  | s :: rest =>
      (result s, snd (runState (occur_all (events s)) (set_sched rest w)))
  end.
Proof.
  unfold turn. rewrite run_bind. unfold rd at 1 2. cbn [runState fst snd].
  destruct (sched w) as [|s rest]; [reflexivity |].
  rewrite !run_bind. reflexivity.
Qed.

Lemma turn_fate w : fst (runState turn w) = fate w.
Proof.
  rewrite run_turn. unfold fate. destruct (sched w); reflexivity.
Qed.

Lemma turn_sched w : sched (snd (runState turn w)) = tl (sched w).
Proof.
  rewrite run_turn. destruct (sched w) as [|s rest] eqn:E; [exact E |].
  apply (q_sched (quiet_occur_all (events s) (set_sched rest w))).
Qed.

Lemma run_sys {A} (c : call) (k : outcome -> M A) w :
  runState (sys c k) w =
  runState (k (fate w)) (snd (runState turn (logged c w))).
Proof.
  unfold sys. rewrite !run_bind. rewrite turn_fate. reflexivity.
Qed.

(** What every system call of the supervising thread does to the state
    that the launcher itself looks at. *)
Record after_call (c : call) (w w' : world) : Prop := {
  ac_child_pid : child_pid w' = child_pid w;
  ac_kpid : kpid w' = kpid w;
  ac_flag : signal_received w <> 0 -> signal_received w' <> 0;
  ac_calls : calls w' = calls w ++ [c];
  ac_sched : sched w' = tl (sched w)
}.

Lemma sys_after_call {A} (c : call) (k : outcome -> M A) :
  (forall o, keeps inner (k o)) ->
  forall w, after_call c w (snd (runState (sys c k) w)).
Proof.
  intros Hk w. rewrite run_sys.
  destruct (Hk (fate w) (snd (runState turn (logged c w)))) as [[a b f] cs sc].
  destruct (turn_frame (logged c w)) as [a' b' f'].
  pose proof (turn_calls (logged c w)) as cs'.
  pose proof (turn_sched (logged c w)) as sc'.
  unfold same_calls, same_sched in *. simpl in *.
  split; try congruence. auto.
Qed.

Lemma sys_keeps (R : world -> world -> Prop) {A} (c : call) (k : outcome -> M A) :
  (forall w1 w2 w3, R w1 w2 -> R w2 w3 -> R w1 w3) ->
  (forall w, R w (logged c w)) ->
  keeps R turn ->
  (forall o, keeps R (k o)) ->
  keeps R (sys c k).
Proof.
  intros T L Ht Hk w. rewrite run_sys.
  eapply T; [apply L |]. eapply T; [apply Ht | apply Hk].
Qed.

Ltac after_call_tac :=
  let w := fresh "w" in
  intro w; apply sys_after_call; intros [| ? | ?]; keeps_tac.

Lemma sigaction_after sig h :
  forall w, after_call (Sigaction sig h) w (snd (runState (sigaction sig h) w)).
Proof. unfold sigaction. after_call_tac. Qed.

Lemma pipe_after : forall w, after_call Pipe w (snd (runState pipe w)).
Proof. unfold pipe. after_call_tac. Qed.

Lemma fcntl_getfl_after f :
  forall w, after_call (FcntlGetfl f) w (snd (runState (fcntl_getfl f) w)).
Proof. unfold fcntl_getfl. after_call_tac. Qed.

Lemma fcntl_setfl_after f flags :
  forall w,
    after_call (FcntlSetfl f flags) w (snd (runState (fcntl_setfl f flags) w)).
Proof. unfold fcntl_setfl. after_call_tac. Qed.

Lemma fork_after in_child :
  forall w, after_call Fork w (snd (runState (fork in_child) w)).
Proof. unfold fork. after_call_tac. Qed.

Lemma close_after f :
  forall w, after_call (Close f) w (snd (runState (close f) w)).
Proof. unfold close. after_call_tac. Qed.

Lemma poll_after f ev timeout :
  forall w,
    after_call (Poll f ev timeout) w (snd (runState (poll f ev timeout) w)).
Proof. unfold poll. after_call_tac. Qed.

Lemma read_after f count :
  forall w, after_call (Read f count) w (snd (runState (read f count) w)).
Proof. unfold read. after_call_tac. Qed.

Lemma write_after f buf :
  forall w, after_call (Write f buf) w (snd (runState (write f buf) w)).
Proof. unfold write. after_call_tac. Qed.

Lemma usleep_after usec :
  forall w, after_call (Usleep usec) w (snd (runState (usleep usec) w)).
Proof. unfold usleep. after_call_tac. Qed.

Lemma sys_kill_after pid sig :
  forall w, after_call (Kill pid sig) w (snd (runState (sys_kill pid sig) w)).
Proof. unfold sys_kill. after_call_tac. Qed.

Lemma waitpid_nohang_after pid :
  forall w,
    after_call (Waitpid pid WNOHANG) w (snd (runState (waitpid_nohang pid) w)).
Proof. unfold waitpid_nohang, collect. after_call_tac. Qed.

(** ** [stopJvm] *)

(** [kill] reports success exactly when the pid is the child's and the
    child is still in the process table. *)
Lemma kill_delivered pid sig w :
  fst (runState (kill pid sig) w) = 0 <->
  pid = Z.pos (kpid w) /\ proc w <> None.
Proof.
  unfold kill. rewrite !run_bind. simpl.
  destruct (proc w) as [p|]; [destruct (Z.eqb_spec pid (Z.pos (kpid w))) |];
    simpl; split; intros H; try discriminate; try tauto.
  split; [assumption | discriminate].
Qed.

(** C4.  [stopJvm] returns 0 exactly when a child is active
    ([child_pid > 0]) and [kill(child_pid, SIGTERM)] succeeded, and then
    the flag holds SIGTERM; in every other case it returns -1 and leaves
    the flag as it was.  It always returns at once: it takes no turn of
    the schedule, makes no call of the supervising thread (no [waitpid]),
    and the child's process-table entry is untouched, so the child is not
    reaped.  The only thing it does to the outside is the one [kill]. *)
Theorem stopJvm_spec (w : world) :
  let r := fst (runState stopJvm w) in
  let w' := snd (runState stopJvm w) in
  (r = 0 \/ r = -1) /\
  (r = 0 <->
   child_pid w > 0 /\ fst (runState (kill (child_pid w) SIGTERM) w) = 0) /\
  (r = 0 -> signal_received w' = SIGTERM) /\
  (r = -1 -> signal_received w' = signal_received w) /\
  kills w' = (if child_pid w >? 0
              then kills w ++ [(child_pid w, SIGTERM)] else kills w) /\
  proc w' = proc w /\ calls w' = calls w /\ sched w' = sched w /\
  child_pid w' = child_pid w.
Proof.
  unfold stopJvm, kill. cbn zeta. rewrite !run_bind. simpl.
  destruct (Z.gtb_spec (child_pid w) 0) as [Hpos | Hneg]; simpl.
  - destruct (proc w) as [p|] eqn:Hp;
      [destruct (Z.eqb_spec (child_pid w) (Z.pos (kpid w))) |]; simpl;
      repeat split; auto; try discriminate; try tauto; try lia.
  - repeat split; auto; try discriminate; try lia.
Qed.

(** A child that runs is stopped: the result is 0 and the flag holds
    SIGTERM. *)
Lemma stopJvm_spec_witness :
  fst (runState stopJvm stdout_trouble) = 0 /\
  signal_received (snd (runState stopJvm stdout_trouble)) = SIGTERM.
Proof.
  assert (H : fst (runState stopJvm stdout_trouble) = 0).
  { apply (proj1 (proj2 (stopJvm_spec stdout_trouble))).
    split; [reflexivity | reflexivity]. }
  split; [exact H |].
  apply (proj1 (proj2 (proj2 (stopJvm_spec stdout_trouble)))). exact H.
Defined.

(** ** Every system call keeps [child_pid] and a flag that is set *)

Lemma frame_of_after {A} (m : M A) c :
  (forall w, after_call c w (snd (runState m w))) -> keeps frame m.
Proof. intros H w. destruct (H w). split; assumption. Qed.

Lemma sigaction_frame sig h : keeps frame (sigaction sig h).
Proof. exact (frame_of_after _ (sigaction_after sig h)). Qed.

Lemma pipe_frame : keeps frame pipe.
Proof. exact (frame_of_after _ pipe_after). Qed.

Lemma fcntl_getfl_frame f : keeps frame (fcntl_getfl f).
Proof. exact (frame_of_after _ (fcntl_getfl_after f)). Qed.

Lemma fcntl_setfl_frame f flags : keeps frame (fcntl_setfl f flags).
Proof. exact (frame_of_after _ (fcntl_setfl_after f flags)). Qed.

Lemma fork_frame in_child : keeps frame (fork in_child).
Proof. exact (frame_of_after _ (fork_after in_child)). Qed.

Lemma close_frame f : keeps frame (close f).
Proof. exact (frame_of_after _ (close_after f)). Qed.

Lemma poll_frame f ev timeout : keeps frame (poll f ev timeout).
Proof. exact (frame_of_after _ (poll_after f ev timeout)). Qed.

Lemma read_frame f count : keeps frame (read f count).
Proof. exact (frame_of_after _ (read_after f count)). Qed.

Lemma write_frame f buf : keeps frame (write f buf).
Proof. exact (frame_of_after _ (write_after f buf)). Qed.

Lemma usleep_frame usec : keeps frame (usleep usec).
Proof. exact (frame_of_after _ (usleep_after usec)). Qed.

Lemma sys_kill_frame pid sig : keeps frame (sys_kill pid sig).
Proof. exact (frame_of_after _ (sys_kill_after pid sig)). Qed.

Lemma waitpid_nohang_frame pid : keeps frame (waitpid_nohang pid).
Proof. exact (frame_of_after _ (waitpid_nohang_after pid)). Qed.

#[local] Hint Resolve sigaction_frame pipe_frame fcntl_getfl_frame
  fcntl_setfl_frame fork_frame close_frame poll_frame read_frame write_frame
  usleep_frame sys_kill_frame waitpid_nohang_frame : keeps.

Lemma deliver_frame buffer : keeps frame (deliver buffer).
Proof. unfold deliver. keeps_tac. Qed.

#[local] Hint Resolve deliver_frame : keeps.

Lemma forward_frame revents : keeps frame (forward revents).
Proof. unfold forward. keeps_tac. Qed.

#[local] Hint Resolve forward_frame : keeps.

Lemma iteration_frame pid : keeps frame (iteration pid).
Proof. unfold iteration. keeps_tac. Qed.

Lemma supervise_S n pid w :
  supervise (S n) pid w =
  match runState (iteration pid) w with
  | (Break, w1) => Some w1
  | (Continue, w1) => supervise n pid w1
  end.
Proof. reflexivity. Qed.

Lemma supervise_frame fuel pid :
  forall w w', supervise fuel pid w = Some w' -> frame w w'.
Proof.
  induction fuel as [|n IH]; intros w w' H; [discriminate |].
  rewrite supervise_S in H.
  pose proof (iteration_frame pid w) as Hi.
  destruct (runState (iteration pid) w) as [[|] w1]; simpl in Hi.
  - inversion H; subst. exact Hi.
  - eapply frame_trans; [exact Hi | apply IH; exact H].
Qed.

Lemma wait_killed_frame pid waited w :
  frame w (snd (wait_killed pid waited w)).
Proof.
  funelim (wait_killed pid waited w); [| apply frame_refl].
  pose proof (waitpid_nohang_frame pid w) as Hw.
  destruct (fst (fst (runState (waitpid_nohang pid) w)) =? pid); [exact Hw |].
  destruct (fst (fst (runState (waitpid_nohang pid) w)) =? -1); [exact Hw |].
  eapply frame_trans; [exact Hw |].
  eapply frame_trans; [apply usleep_frame | exact H].
Qed.

Lemma collect_frame pid st : keeps frame (collect pid st).
Proof. unfold collect. keeps_tac. Qed.

Lemma block_until_exit_eq n pid w :
  block_until_exit n pid w =
  block_step pid (snd (runState turn w)) (fst (runState turn w))
             (match n with
              | O => None
              | S m => block_until_exit m pid (snd (runState turn w))
              end).
Proof.
  destruct n; cbn [block_until_exit]; destruct (runState turn w) as [o w1];
    reflexivity.
Qed.

Lemma block_step_frame pid w w1 o go_on r w' :
  frame w w1 ->
  (forall r w', go_on = Some (r, w') -> frame w1 w') ->
  block_step pid w1 o go_on = Some (r, w') -> frame w w'.
Proof.
  intros Ht Hgo H. unfold block_step in H.
  assert (Hf : forall e, frame w (snd (runState (r <- fails e ;; ret (r, 0)) w1)))
    by (intro e; eapply frame_trans; [exact Ht | split; simpl; auto]).
  assert (Hc : forall st, frame w (snd (runState (collect pid st) w1)))
    by (intro st; eapply frame_trans; [exact Ht | apply collect_frame]).
  assert (Hs : forall x : (Z * Z) * world,
             Some x = Some (r, w') -> w' = snd x)
    by (intros x Hx; injection Hx as Hx; rewrite Hx; reflexivity).
  destruct o;
    try (rewrite (Hs _ H); apply Hf);
    (destruct (pid =? Z.pos (kpid w1));
     [destruct (proc w1) as [[|st]|] |]);
    try (rewrite (Hs _ H); apply Hc);
    (eapply frame_trans; [exact Ht | eapply Hgo; exact H]).
Qed.

Lemma block_until_exit_frame n pid :
  forall w r w', block_until_exit n pid w = Some (r, w') -> frame w w'.
Proof.
  induction n as [|n IH]; intros w r w' H; rewrite block_until_exit_eq in H;
    (eapply block_step_frame; [apply turn_frame | | exact H]).
  - discriminate.
  - apply IH.
Qed.

Lemma some_pair {A B} (x : A * B) a b :
  Some x = Some (a, b) -> a = fst x /\ b = snd x.
Proof. intros H. injection H as H. rewrite H. split; reflexivity. Qed.

Lemma waitpid_block_frame pid w r w' :
  waitpid_block pid w = Some (r, w') -> frame w w'.
Proof.
  unfold waitpid_block. intros H.
  apply block_until_exit_frame in H.
  eapply frame_trans; [| exact H]. split; simpl; auto.
Qed.

Lemma reap_flag pid w r w' :
  reap pid w = Some (r, w') ->
  signal_received w <> 0 -> signal_received w' <> 0.
Proof.
  unfold reap. intros H Hs.
  destruct (waitpid_block pid w) as [[[res status] w1]|] eqn:Hw; [| discriminate].
  apply waitpid_block_frame in Hw. apply (fr_flag Hw) in Hs.
  destruct (res =? -1); [| destruct (WIFSIGNALED status)];
    inversion H; subst; exact Hs.
Qed.

Lemma shutdown_frame_flag pid w :
  signal_received w <> 0 ->
  signal_received (snd (runState (shutdown pid) w)) <> 0.
Proof.
  intros Hs. unfold shutdown. rewrite !run_bind. simpl.
  apply (fr_flag (wait_killed_frame pid 0 _)).
  apply (fr_flag (sys_kill_frame pid SIGKILL w)). exact Hs.
Qed.

Lemma after_loop_flag pid w r w' :
  after_loop pid w = Some (r, w') ->
  signal_received w <> 0 -> signal_received w' <> 0.
Proof.
  unfold after_loop. intros H Hs.
  apply (fr_flag (close_frame PipeRd w)) in Hs.
  destruct (negb (signal_received (snd (runState (close PipeRd) w)) =? 0)).
  - apply some_pair in H as [_ ->]. apply shutdown_frame_flag. exact Hs.
  - eapply reap_flag; eassumption.
Qed.

Lemma parent_flag fuel pid w r w' :
  parent fuel pid w = Some (r, w') ->
  signal_received w <> 0 -> signal_received w' <> 0.
Proof.
  unfold parent. intros H Hs.
  destruct (supervise fuel pid _) as [w3|] eqn:Hl; [| discriminate].
  apply supervise_frame in Hl.
  eapply after_loop_flag; [exact H |].
  apply (fr_flag Hl). apply (fr_flag (close_frame PipeWr _)). exact Hs.
Qed.

Lemma launch_body_flag fuel argv w r w' :
  launch_body fuel argv w = Some (r, w') ->
  signal_received w <> 0 -> signal_received w' <> 0.
Proof.
  unfold launch_body. intros H Hs.
  pose proof (fr_flag (pipe_frame w) Hs) as H1.
  destruct (runState pipe w) as [r1 w1]; simpl in H1.
  destruct (r1 =? -1); [inversion H; subst; exact H1 |].
  pose proof (fr_flag (fcntl_getfl_frame PipeRd w1) H1) as H2.
  destruct (runState (fcntl_getfl PipeRd) w1) as [flags w2]; simpl in H2.
  pose proof (fr_flag (fcntl_setfl_frame PipeRd (Z.lor flags O_NONBLOCK) w2) H2) as H3.
  destruct (runState (fcntl_setfl PipeRd _) w2) as [r3 w3]; simpl in H3.
  pose proof (fr_flag (fork_frame (child_branch argv) w3) H3) as H4.
  destruct (runState (fork _) w3) as [pid w4]; simpl in H4.
  destruct (pid =? -1).
  - pose proof (fr_flag (close_frame PipeRd w4) H4) as H5.
    destruct (runState (close PipeRd) w4) as [r5 w5]; simpl in H5.
    pose proof (fr_flag (close_frame PipeWr w5) H5) as H6.
    destruct (runState (close PipeWr) w5) as [r6 w6]; simpl in H6.
    inversion H; subst; exact H6.
  - destruct (pid =? 0); [discriminate |].
    eapply parent_flag; eassumption.
Qed.

(** ** The cancellation flag *)

Lemma handler_sets_flag s w :
  signal_received (snd (runState (signal_handler (signum s)) w)) = signum s.
Proof.
  unfold signal_handler, kill. simpl.
  destruct (child_pid w >? 0); simpl; [| reflexivity].
  destruct (proc w); [destruct (child_pid w =? Z.pos (kpid w)) |]; reflexivity.
Qed.

Lemma stop_flag w :
  signal_received (snd (runState stopJvm w)) = signal_received w \/
  signal_received (snd (runState stopJvm w)) = SIGTERM.
Proof.
  unfold stopJvm, kill. simpl.
  destruct (child_pid w >? 0); simpl; [| left; reflexivity].
  destruct (proc w); [destruct (child_pid w =? Z.pos (kpid w)) |]; simpl;
    [right | left | left]; reflexivity.
Qed.

(** C8, the claim as stated, fails: with SIGINT recorded, the handler
    run for SIGTERM replaces the recorded signal by 15; the flag neither
    stays as it was nor starts from "not requested". *)
Lemma recorded_signal_replaced :
  ~ unchanged_or_raised
      (signal_received interrupted)
      (signal_received
         (snd (runState (signal_handler (signum Terminate)) interrupted))).
Proof.
  vm_compute. intros [H | [H _]]; discriminate.
Qed.

(** C8, amended.  A request is never withdrawn, but the recorded signal
    may be replaced: the handler always stores its own signal number,
    which is not 0; [stopJvm] leaves the flag or stores SIGTERM; the
    supervision loop, the code after it, and the whole of [launchJvm]
    from the creation of the pipe on never take a set flag back to 0.
    The flag is set to 0 in one place, by [launchJvm] right after the
    handlers are installed. *)
Theorem request_never_withdrawn :
  (forall s w,
      signal_received (snd (runState (signal_handler (signum s)) w)) = signum s
      /\ signum s <> 0) /\
  (forall w,
      signal_received (snd (runState stopJvm w)) = signal_received w \/
      signal_received (snd (runState stopJvm w)) = SIGTERM) /\
  (forall fuel pid w w',
      supervise fuel pid w = Some w' ->
      signal_received w <> 0 -> signal_received w' <> 0) /\
  (forall pid w r w',
      after_loop pid w = Some (r, w') ->
      signal_received w <> 0 -> signal_received w' <> 0) /\
  (forall fuel argv w r w',
      launch_body fuel argv w = Some (r, w') ->
      signal_received w <> 0 -> signal_received w' <> 0) /\
  (forall fuel argv w,
      launchJvm fuel argv w =
      if fst (runState setup_signal_handlers w) =? -1
      then Some (-1, snd (runState setup_signal_handlers w))
      else launch_body fuel argv
             (set_child_pid (-1)
                (set_signal_received 0
                   (snd (runState setup_signal_handlers w))))).
Proof.
  repeat split.
  - apply handler_sets_flag.
  - apply signum_nonzero.
  - apply stop_flag.
  - intros fuel pid w w' H. apply (fr_flag (supervise_frame _ _ _ H)).
  - intros pid w r w'. apply after_loop_flag.
  - intros fuel argv w r w'. apply launch_body_flag.
  - intros fuel argv w. unfold launchJvm.
    destruct (runState setup_signal_handlers w) as [r w0]. reflexivity.
Qed.

(** With SIGINT recorded, one pass of the loop leaves the flag set. *)
Lemma request_never_withdrawn_witness :
  signal_received (snd (runState (poll PipeRd POLLIN 100) interrupted)) <> 0.
Proof.
  apply (proj1 (proj2 (proj2 request_never_withdrawn))
           1%nat 1234 interrupted
           (snd (runState (poll PipeRd POLLIN 100) interrupted)));
    [reflexivity | discriminate].
Defined.

(** ** The flag is looked at before anything is read *)

Lemma iteration_eq pid w :
  runState (iteration pid) w =
  let p := runState (poll PipeRd POLLIN 100) w in
  if negb (signal_received (snd p) =? 0) then (Break, snd p)
  else runState
         (if fst (fst p) =? -1 then
            e <- rd errno ;;
            if e =? EINTR then
              sr' <- rd signal_received ;;
              if negb (sr' =? 0) then ret Break else ret Continue
            else ret Break
          else if fst (fst p) =? 0 then
            '(result, _) <- waitpid_nohang pid ;;
            if result =? pid then ret Break
            else if result =? -1 then ret Break
            else ret Continue
          else
            c <- forward (snd (fst p)) ;;
            match c with
            | Break => ret Break
            | Continue =>
                if negb (Z.land (snd (fst p)) (Z.lor POLLERR POLLHUP) =? 0)
                then ret Break else ret Continue
            end) (snd p).
Proof.
  unfold iteration. rewrite run_bind. cbn zeta.
  destruct (runState (poll PipeRd POLLIN 100) w) as [[r revents] w1].
  cbn [fst snd]. rewrite run_bind. cbn [rd runState fst snd].
  destruct (negb (signal_received w1 =? 0)); reflexivity.
Qed.

(** C7.  Whatever [poll] returned, if the flag is set when it returns,
    the pass through the loop ends there with [break]: the state is the
    one in which [poll] returned, and the only call made in the pass is
    that [poll], so nothing is read.  The flag persists: if it is set
    before a pass begins, it is still set when that pass's [poll] returns.
    So when the flag is already set as [fork] returns in the parent, the
    whole loop is one [poll], and the code after the loop follows. *)
Theorem cancel_seen_before_read (pid : Z) (w : world) :
  let w1 := snd (runState (poll PipeRd POLLIN 100) w) in
  (signal_received w1 <> 0 ->
   runState (iteration pid) w = (Break, w1) /\
   calls w1 = calls w ++ [Poll PipeRd POLLIN 100] /\
   forall fuel, supervise (S fuel) pid w = Some w1) /\
  (signal_received w <> 0 -> signal_received w1 <> 0) /\
  (signal_received w <> 0 ->
   forall fuel,
     parent (S fuel) pid w =
     after_loop pid
       (snd (runState (poll PipeRd POLLIN 100)
               (snd (runState (close PipeWr) (set_child_pid pid w)))))).
Proof.
  assert (Hbreak : forall v,
             signal_received (snd (runState (poll PipeRd POLLIN 100) v)) <> 0 ->
             runState (iteration pid) v =
             (Break, snd (runState (poll PipeRd POLLIN 100) v))).
  { intros v Hs. rewrite iteration_eq. cbn zeta.
    destruct (Z.eqb_spec (signal_received
                (snd (runState (poll PipeRd POLLIN 100) v))) 0);
      [contradiction | reflexivity]. }
  cbn zeta. split; [| split].
  - intros Hs. split; [exact (Hbreak w Hs) |]. split.
    + apply (ac_calls (poll_after PipeRd POLLIN 100 w)).
    + intros fuel. rewrite supervise_S, (Hbreak w Hs). reflexivity.
  - apply (fr_flag (poll_frame PipeRd POLLIN 100 w)).
  - intros Hs fuel. unfold parent.
    rewrite supervise_S, Hbreak; [reflexivity |].
    apply (fr_flag (poll_frame PipeRd POLLIN 100 _)).
    apply (fr_flag (close_frame PipeWr _)). exact Hs.
Qed.

(** With SIGINT recorded, the pass ends at its [poll]. *)
Lemma cancel_seen_before_read_witness :
  runState (iteration 1234) interrupted =
  (Break, snd (runState (poll PipeRd POLLIN 100) interrupted)).
Proof.
  apply (proj1 (cancel_seen_before_read 1234 interrupted)).
  vm_compute. discriminate.
Defined.

(** ** After the loop *)

Lemma nth_fate_after c w w' n :
  after_call c w w' -> nth_fate n w' = nth_fate (S n) w.
Proof.
  intros H. unfold nth_fate. rewrite (ac_sched H).
  destruct (sched w); [destruct n |]; reflexivity.
Qed.

(** A look that does not answer 0 has a reason: the child has ended and
    is reaped by this look, or there is no such child, or the call
    failed. *)
Lemma look_answer pid w :
  let rw := runState (waitpid_nohang pid) w in
  (fst (fst rw) =? pid) || (fst (fst rw) =? -1) = true ->
  proc (snd rw) = None \/ pid <> Z.pos (kpid w) \/
  failing (nth_fate 0 w) = true.
Proof.
  cbv zeta. unfold waitpid_nohang. rewrite run_sys.
  assert (Hk : kpid (snd (runState turn (logged (Waitpid pid WNOHANG) w))) =
               kpid w)
    by apply (fr_kpid (turn_frame (logged (Waitpid pid WNOHANG) w))).
  set (wt := snd (runState turn (logged (Waitpid pid WNOHANG) w))) in *.
  replace (nth_fate 0 w) with (fate w)
    by (unfold fate, nth_fate; destruct (sched w); reflexivity).
  assert (Hn : forall v,
             (fst (fst (runState (collect pid None) v)) =? pid)
             || (fst (fst (runState (collect pid None) v)) =? -1) = true ->
             proc v = None \/ pid <> Z.pos (kpid w) ->
             proc (snd (runState (collect pid None) v)) = None \/
             pid <> Z.pos (kpid w) \/ failing (fate w) = true).
  { intros v _ [Hp | Hp]; [left; exact Hp | right; left; exact Hp]. }
  assert (Hgo : forall o,
             failing o = false ->
             (fst (fst (runState
                          (p <- rd proc ;;
                           k <- rd kpid ;;
                           if pid =? Z.pos k then
                             match p with
                             | Some Running => ret (0, 0)
                             | Some (Zombie st) => collect pid (Some st)
                             | None => collect pid None
                             end
                           else collect pid None) wt)) =? pid)
             || (fst (fst (runState
                             (p <- rd proc ;;
                              k <- rd kpid ;;
                              if pid =? Z.pos k then
                                match p with
                                | Some Running => ret (0, 0)
                                | Some (Zombie st) => collect pid (Some st)
                                | None => collect pid None
                                end
                              else collect pid None) wt)) =? -1) = true ->
             proc (snd (runState
                          (p <- rd proc ;;
                           k <- rd kpid ;;
                           if pid =? Z.pos k then
                             match p with
                             | Some Running => ret (0, 0)
                             | Some (Zombie st) => collect pid (Some st)
                             | None => collect pid None
                             end
                           else collect pid None) wt)) = None \/
             pid <> Z.pos (kpid w) \/ failing (fate w) = true).
  { intros o _. rewrite !run_bind. cbn [rd runState fst snd]. rewrite Hk.
    destruct (Z.eqb_spec pid (Z.pos (kpid w))) as [E | E].
    - destruct (proc wt) as [[|st]|] eqn:Ep.
      + rewrite E. simpl. discriminate.
      + intros _. left. reflexivity.
      + intros _. left. exact Ep.
    - intros _. right. left. exact E. }
  destruct (fate w) as [| e | n] eqn:F.
  - apply (Hgo Normal eq_refl).
  - intros _. right. right. reflexivity.
  - apply (Hgo (Partial n) eq_refl).
Qed.

Lemma wait_killed_trace pid waited w :
  exists k last,
    calls (snd (wait_killed pid waited w)) = calls w ++ polling pid k last /\
    fst (wait_killed pid waited w) = waited + 100 * Z.of_nat k /\
    (last = [] /\ wait_timeout <= waited + 100 * Z.of_nat k \/
     last = [Waitpid pid WNOHANG] /\
     waited + 100 * Z.of_nat k < wait_timeout /\
     (proc (snd (wait_killed pid waited w)) = None \/
      pid <> Z.pos (kpid w) \/ failing (nth_fate (2 * k) w) = true)) /\
    (k = 0%nat \/ waited + 100 * Z.of_nat k < wait_timeout + 100).
Proof.
  funelim (wait_killed pid waited w).
  - pose proof (waitpid_nohang_after pid w) as Ha.
    pose proof (ac_calls Ha) as Hc.
    pose proof (look_answer pid w) as Hl. cbv zeta in Hl.
    assert (Hstop :
              (fst (fst (runState (waitpid_nohang pid) w)) =? pid)
              || (fst (fst (runState (waitpid_nohang pid) w)) =? -1) = true ->
              exists k last,
                calls (snd (waited, snd (runState (waitpid_nohang pid) w))) =
                  calls w ++ polling pid k last /\
                fst (waited, snd (runState (waitpid_nohang pid) w)) =
                  waited + 100 * Z.of_nat k /\
                (last = [] /\ wait_timeout <= waited + 100 * Z.of_nat k \/
                 last = [Waitpid pid WNOHANG] /\
                 waited + 100 * Z.of_nat k < wait_timeout /\
                 (proc (snd (waited,
                             snd (runState (waitpid_nohang pid) w))) = None \/
                  pid <> Z.pos (kpid w) \/
                  failing (nth_fate (2 * k) w) = true)) /\
                (k = 0%nat \/ waited + 100 * Z.of_nat k < wait_timeout + 100)).
    { intros Hb. exists 0%nat, [Waitpid pid WNOHANG]. cbn [fst snd polling].
      split; [exact Hc |]. split; [lia |].
      split; [right; split; [reflexivity | split; [lia | exact (Hl Hb)]]
             | left; reflexivity]. }
    destruct (fst (fst (runState (waitpid_nohang pid) w)) =? pid);
      [exact (Hstop eq_refl) |].
    destruct (fst (fst (runState (waitpid_nohang pid) w)) =? -1);
      [exact (Hstop eq_refl) |].
    clear Hstop Hl.
    pose proof (usleep_after 100000 (snd (runState (waitpid_nohang pid) w)))
      as Hu.
    destruct H as (k & last & Hcalls & Hw & Hlast & Hk).
    exists (S k), last. cbn [polling].
    rewrite Hcalls, Hw.
    rewrite (ac_calls Hu), Hc, <- !app_assoc.
    split; [reflexivity |]. split; [lia |]. split.
    + destruct Hlast as [[Hl Hb] | (Hl & Hb & Hr)];
        [left; split; [exact Hl | lia] |].
      right. split; [exact Hl |]. split; [lia |].
      rewrite (nth_fate_after _ Hu), (nth_fate_after _ Ha) in Hr.
      rewrite (ac_kpid Hu), (ac_kpid Ha) in Hr.
      replace (2 * S k)%nat with (S (S (2 * k))) by lia. exact Hr.
    + right. destruct Hk as [Hk | Hk]; [subst k; lia | lia].
  - exists 0%nat, []. cbn [fst snd polling]. rewrite app_nil_r.
    split; [reflexivity |]. split; [lia |].
    split; [left; split; [reflexivity | lia] | left; reflexivity].
Qed.

(** C3.  If the flag is set when the loop is left, [launchJvm] closes the
    read end, sends SIGKILL to the child whatever the child's state is,
    then looks for it with [waitpid(WNOHANG)] and sleeps 100 ms, round
    after round.  Either all 50 looks and 50 sleeps (5000 ms of sleep)
    are made and the window has run out; or, after fewer than 50 sleeps,
    a look ends the polling, with no call after it, and then for a
    reason: the child has ended and this look has reaped it, or there is
    no such child, or the look failed.  In both cases [child_pid] is then
    -1 and the result is -1. *)
Theorem cancelled_shutdown (pid : Z) (w : world) :
  signal_received w <> 0 ->
  exists w' k last,
    after_loop pid w = Some (-1, w') /\
    child_pid w' = -1 /\
    calls w' =
      calls w ++ Close PipeRd :: Kill pid SIGKILL :: polling pid k last /\
    (last = [] /\ k = 50%nat \/
     last = [Waitpid pid WNOHANG] /\ (k < 50)%nat /\
     (proc w' = None \/ pid <> Z.pos (kpid w) \/
      failing (nth_fate (2 * k + 2) w) = true)).
Proof.
  intros Hs. unfold after_loop.
  pose proof (close_after PipeRd w) as Hc.
  apply (ac_flag Hc) in Hs.
  destruct (Z.eqb_spec (signal_received (snd (runState (close PipeRd) w))) 0)
    as [E | _]; [contradiction |]. cbn [negb].
  set (w1 := snd (runState (close PipeRd) w)) in *.
  pose proof (sys_kill_after pid SIGKILL w1) as Hk.
  set (w2 := snd (runState (sys_kill pid SIGKILL) w1)) in *.
  destruct (wait_killed_trace pid 0 w2) as (k & last & Hcalls & Hw & Hlast & Hb).
  exists (set_child_pid (-1) (snd (wait_killed pid 0 w2))), k, last.
  unfold wait_timeout in *.
  split; [| split; [| split]].
  - unfold shutdown. rewrite !run_bind. reflexivity.
  - reflexivity.
  - cbn [calls set_child_pid]. rewrite Hcalls, (ac_calls Hk), (ac_calls Hc).
    rewrite <- !app_assoc. reflexivity.
  - destruct Hlast as [[Hl Hge] | (Hl & Hlt & Hr)];
      [left; split; [exact Hl | destruct Hb as [Hb | Hb]; lia] |].
    right. split; [exact Hl |]. split; [lia |].
    rewrite (nth_fate_after _ Hk), (nth_fate_after _ Hc) in Hr.
    rewrite (ac_kpid Hk), (ac_kpid Hc) in Hr.
    replace (2 * k + 2)%nat with (S (S (2 * k))) by lia. exact Hr.
Qed.

(** A cancelled launch whose child ignores the signals: the window runs
    out. *)
Lemma cancelled_shutdown_witness :
  signal_received interrupted <> 0 /\
  exists w' k last,
    after_loop 1234 interrupted = Some (-1, w') /\
    child_pid w' = -1 /\
    calls w' =
      calls interrupted ++
      Close PipeRd :: Kill 1234 SIGKILL :: polling 1234 k last /\
    (last = [] /\ k = 50%nat \/
     last = [Waitpid 1234 WNOHANG] /\ (k < 50)%nat /\
     (proc w' = None \/ 1234 <> Z.pos (kpid interrupted) \/
      failing (nth_fate (2 * k + 2) interrupted) = true)).
Proof.
  split; [discriminate |].
  apply (cancelled_shutdown 1234 interrupted). discriminate.
Defined.

(** C9.  Whenever the code after the loop returns, [child_pid] is -1: on
    the cancellation path (child found or not within the window), and
    after the blocking [waitpid], whether it failed, reported a death by
    signal or a normal exit.  The code after the loop fails to return in
    one case only: the flag is not set and the blocking [waitpid] never
    comes back. *)
Theorem child_pid_cleared (pid : Z) (w : world) :
  match after_loop pid w with
  | Some (_, w') => child_pid w' = -1
  | None =>
      let w1 := snd (runState (close PipeRd) w) in
      signal_received w1 = 0 /\ waitpid_block pid w1 = None
  end.
Proof.
  unfold after_loop.
  destruct (Z.eqb_spec (signal_received (snd (runState (close PipeRd) w))) 0)
    as [E | E]; cbn [negb].
  - unfold reap.
    destruct (waitpid_block pid _) as [[[r status] w1]|]; [| split; [exact E | reflexivity]].
    destruct (r =? -1); [reflexivity |].
    destruct (WIFSIGNALED status); reflexivity.
  - unfold shutdown. rewrite !run_bind. reflexivity.
Qed.

(** ** Failure to create the pipe or the child *)

(** The calls [cs] have been made, each with its turn of the schedule,
    and no child has come into being. *)
Record made (cs : list call) (w w' : world) : Prop := {
  md_frame : frame w w';
  md_childless : childless w w';
  md_calls : calls w' = calls w ++ cs;
  md_sched : sched w' = skipn (List.length cs) (sched w)
}.

Lemma made_trans cs1 cs2 w1 w2 w3 :
  made cs1 w1 w2 -> made cs2 w2 w3 -> made (cs1 ++ cs2) w1 w3.
Proof.
  intros [f1 c1 l1 s1] [f2 c2 l2 s2]. split.
  - eapply frame_trans; eassumption.
  - eapply childless_trans; eassumption.
  - rewrite l2, l1, app_assoc. reflexivity.
  - rewrite s2, s1, skipn_skipn, length_app, Nat.add_comm. reflexivity.
Qed.

Lemma nth_fate_made cs w w' n :
  made cs w w' -> nth_fate n w' = nth_fate (List.length cs + n) w.
Proof.
  intros H. unfold nth_fate. rewrite (md_sched H), nth_error_skipn. reflexivity.
Qed.

Lemma fate_nth w : fate w = nth_fate 0 w.
Proof. unfold fate, nth_fate. destruct (sched w); reflexivity. Qed.

Lemma turned_made c w : made [c] w (turned c w).
Proof.
  unfold turned. split.
  - eapply frame_trans; [| apply turn_frame]. split; simpl; auto.
  - eapply childless_trans; [| apply turn_childless]. intro H; exact H.
  - rewrite (turn_calls (logged c w)). reflexivity.
  - rewrite turn_sched. simpl. destruct (sched w); reflexivity.
Qed.

Lemma turned_fds c w : same_fds w (turned c w).
Proof.
  unfold turned. eapply same_fds_trans; [| apply turn_fds]. split; reflexivity.
Qed.

(** A call whose answer changes nothing but [errno]. *)
Lemma plain_call c w (k : outcome -> M Z) :
  (forall o, k o = match o with Fail e => fails e | _ => ret 0 end) ->
  fst (runState (sys c k) w) = (if failing (fate w) then -1 else 0) /\
  made [c] w (snd (runState (sys c k) w)) /\
  same_fds w (snd (runState (sys c k) w)).
Proof.
  intros Hk. rewrite run_sys, Hk. fold (turned c w).
  pose proof (turned_made c w) as [f cl l s].
  pose proof (turned_fds c w) as [r1 r2].
  destruct f as [a b d].
  destruct (fate w); simpl; (split; [reflexivity |]);
    (split; [split; [split |..] | split]); simpl; assumption.
Qed.

Lemma sigaction_plain sig h w :
  fst (runState (sigaction sig h) w) = (if failing (fate w) then -1 else 0) /\
  made [Sigaction sig h] w (snd (runState (sigaction sig h) w)) /\
  same_fds w (snd (runState (sigaction sig h) w)).
Proof. apply plain_call. reflexivity. Qed.

Lemma fcntl_getfl_plain f w :
  fst (runState (fcntl_getfl f) w) = (if failing (fate w) then -1 else 0) /\
  made [FcntlGetfl f] w (snd (runState (fcntl_getfl f) w)) /\
  same_fds w (snd (runState (fcntl_getfl f) w)).
Proof. apply plain_call. reflexivity. Qed.

Lemma fcntl_setfl_plain f flags w :
  fst (runState (fcntl_setfl f flags) w) = (if failing (fate w) then -1 else 0) /\
  made [FcntlSetfl f flags] w (snd (runState (fcntl_setfl f flags) w)) /\
  same_fds w (snd (runState (fcntl_setfl f flags) w)).
Proof. apply plain_call. reflexivity. Qed.

Lemma pipe_made w :
  fst (runState pipe w) = (if failing (fate w) then -1 else 0) /\
  made [Pipe] w (snd (runState pipe w)) /\
  (failing (fate w) = true -> same_fds w (snd (runState pipe w))).
Proof.
  unfold pipe. rewrite run_sys. fold (turned Pipe w).
  pose proof (turned_made Pipe w) as [f cl l s].
  pose proof (turned_fds Pipe w) as [r1 r2].
  destruct f as [a b d].
  destruct (fate w); simpl; (split; [reflexivity |]);
    (split; [split; [split |..] | intros F; try discriminate F; split]);
    simpl; assumption.
Qed.

Lemma fork_fails in_child w :
  failing (fate w) = true ->
  fst (runState (fork in_child) w) = -1 /\
  made [Fork] w (snd (runState (fork in_child) w)) /\
  same_fds w (snd (runState (fork in_child) w)).
Proof.
  intros F. unfold fork. rewrite run_sys. fold (turned Fork w).
  pose proof (turned_made Fork w) as [f cl l s].
  pose proof (turned_fds Fork w) as [r1 r2].
  destruct f as [a b d].
  destruct (fate w); try discriminate F. simpl.
  split; [reflexivity |].
  split; [split; [split |..] | split]; simpl; assumption.
Qed.

Lemma close_made f w :
  let w' := snd (runState (close f) w) in
  made [Close f] w w' /\
  rd_open w' = match f with PipeRd => false | _ => rd_open w end /\
  wr_open w' = match f with PipeWr => false | _ => wr_open w end.
Proof.
  cbn zeta. unfold close. rewrite run_sys. fold (turned (Close f) w).
  pose proof (turned_made (Close f) w) as [fr cl l s].
  pose proof (turned_fds (Close f) w) as [r1 r2].
  destruct fr as [a b d].
  rewrite run_bind.
  destruct f; simpl;
    (split; [split; [split |..] | split]); simpl; assumption || reflexivity.
Qed.

Lemma setup_succeeds w :
  failing (nth_fate 0 w) = false ->
  failing (nth_fate 1 w) = false ->
  failing (nth_fate 2 w) = false ->
  let w0 := snd (runState setup_signal_handlers w) in
  fst (runState setup_signal_handlers w) = 0 /\
  made [Sigaction SIGINT Handler; Sigaction SIGTERM Handler;
        Sigaction SIGPIPE Ignore] w w0 /\
  same_fds w w0.
Proof.
  intros F0 F1 F2. cbn zeta. unfold setup_signal_handlers.
  destruct (sigaction_plain SIGINT Handler w) as (R1 & M1 & D1).
  rewrite <- fate_nth in F0. rewrite F0 in R1.
  rewrite run_bind, R1. cbn [Z.eqb].
  set (w1 := snd (runState (sigaction SIGINT Handler) w)) in *.
  destruct (sigaction_plain SIGTERM Handler w1) as (R2 & M2 & D2).
  rewrite fate_nth, (nth_fate_made 0 M1) in R2. cbn [List.length Nat.add] in R2.
  rewrite F1 in R2.
  rewrite run_bind, R2. cbn [Z.eqb].
  set (w2 := snd (runState (sigaction SIGTERM Handler) w1)) in *.
  pose proof (made_trans M1 M2) as M12. cbn [app] in M12.
  destruct (sigaction_plain SIGPIPE Ignore w2) as (R3 & M3 & D3).
  rewrite fate_nth, (nth_fate_made 0 M12) in R3. cbn [List.length Nat.add] in R3.
  rewrite F2 in R3.
  rewrite run_bind, R3. cbn [Z.eqb].
  split; [reflexivity |]. split.
  - apply (made_trans M12 M3).
  - eapply same_fds_trans; [exact D1 |]. eapply same_fds_trans; eassumption.
Qed.

Lemma launch_body_spawn_failure fuel argv w :
  failing (nth_fate 0 w) = true \/ failing (nth_fate 3 w) = true ->
  exists w' cs,
    launch_body fuel argv w = Some (-1, w') /\
    made cs w w' /\
    if failing (nth_fate 0 w)
    then cs = [Pipe] /\ same_fds w w'
    else (exists flags,
             cs = [Pipe; FcntlGetfl PipeRd; FcntlSetfl PipeRd flags; Fork;
                   Close PipeRd; Close PipeWr]) /\
         rd_open w' = false /\ wr_open w' = false.
Proof.
  intros F. unfold launch_body.
  destruct (pipe_made w) as (R1 & M1 & D1). rewrite fate_nth in R1, D1.
  destruct (runState pipe w) as [r1 w1]. cbn [fst snd] in *.
  destruct (failing (nth_fate 0 w)) eqn:F0; subst r1; cbn [Z.eqb].
  - exists w1, [Pipe]. repeat split; try apply M1; apply D1; reflexivity.
  - destruct F as [F | F]; [discriminate |].
    destruct (fcntl_getfl_plain PipeRd w1) as (_ & M2 & _).
    destruct (runState (fcntl_getfl PipeRd) w1) as [flags w2]. cbn [snd] in M2.
    pose proof (made_trans M1 M2) as M12.
    destruct (fcntl_setfl_plain PipeRd (Z.lor flags O_NONBLOCK) w2) as (_ & M3 & _).
    destruct (runState (fcntl_setfl PipeRd _) w2) as [r3 w3]. cbn [snd] in M3.
    pose proof (made_trans M12 M3) as M13. cbn [app] in M13.
    assert (F3 : failing (fate w3) = true).
    { rewrite fate_nth, (nth_fate_made 0 M13). exact F. }
    destruct (fork_fails (child_branch argv) w3 F3) as (R4 & M4 & _).
    destruct (runState (fork _) w3) as [pid w4]. cbn [fst snd] in *.
    subst pid. cbn [Z.eqb].
    pose proof (made_trans M13 M4) as M14. cbn [app] in M14.
    destruct (close_made PipeRd w4) as (M5 & Rd5 & Wr5).
    destruct (runState (close PipeRd) w4) as [r5 w5]. cbn [snd] in *.
    pose proof (made_trans M14 M5) as M15. cbn [app] in M15.
    destruct (close_made PipeWr w5) as (M6 & Rd6 & Wr6).
    destruct (runState (close PipeWr) w5) as [r6 w6]. cbn [snd] in *.
    pose proof (made_trans M15 M6) as M16. cbn [app] in M16.
    exists w6, [Pipe; FcntlGetfl PipeRd; FcntlSetfl PipeRd (Z.lor flags O_NONBLOCK);
                Fork; Close PipeRd; Close PipeWr].
    split; [reflexivity |]. split; [exact M16 |].
    split; [eexists; reflexivity |]. split; congruence.
Qed.

(** C6.  Let the three [sigaction] calls succeed.  If [pipe] (the fourth
    call) fails, or if it succeeds and [fork] (the seventh call) fails,
    [launchJvm] returns -1; [child_pid] is -1; no child has come into
    being; and no descriptor is left behind: after a failed [pipe] the
    supervisor's descriptors are what they were and [pipe] was the last
    call, after a failed [fork] both ends of the pipe are closed, by the
    last two calls made. *)
Theorem spawn_failure (fuel : nat) (argv : list string) (w : world) :
  failing (nth_fate 0 w) = false ->
  failing (nth_fate 1 w) = false ->
  failing (nth_fate 2 w) = false ->
  failing (nth_fate 3 w) = true \/ failing (nth_fate 6 w) = true ->
  exists w',
    launchJvm fuel argv w = Some (-1, w') /\
    child_pid w' = -1 /\
    (proc w = None -> proc w' = None) /\
    if failing (nth_fate 3 w)
    then rd_open w' = rd_open w /\ wr_open w' = wr_open w /\
         calls w' =
           calls w ++ [Sigaction SIGINT Handler; Sigaction SIGTERM Handler;
                       Sigaction SIGPIPE Ignore; Pipe]
    else rd_open w' = false /\ wr_open w' = false /\
         exists flags,
           calls w' =
             calls w ++ [Sigaction SIGINT Handler; Sigaction SIGTERM Handler;
                         Sigaction SIGPIPE Ignore; Pipe; FcntlGetfl PipeRd;
                         FcntlSetfl PipeRd flags; Fork;
                         Close PipeRd; Close PipeWr].
Proof.
  intros F0 F1 F2 F.
  destruct (setup_succeeds w F0 F1 F2) as (R0 & M0 & D0).
  unfold launchJvm.
  destruct (runState setup_signal_handlers w) as [r0 w0]. cbn [fst snd] in *.
  subst r0. cbn [Z.eqb].
  set (wr := set_child_pid (-1) (set_signal_received 0 w0)).
  assert (N0 : nth_fate 0 wr = nth_fate 3 w) by apply (nth_fate_made 0 M0).
  assert (N3 : nth_fate 3 wr = nth_fate 6 w) by apply (nth_fate_made 3 M0).
  destruct (launch_body_spawn_failure fuel argv wr) as (w' & cs & L & M & C).
  { rewrite N0, N3. exact F. }
  exists w'. split; [exact L |].
  destruct M as [[a b d] cl l s]. destruct M0 as [[a0 b0 d0] cl0 l0 s0].
  destruct D0 as [rd0 wr0].
  split; [rewrite a; reflexivity |].
  split; [intros Hp; apply cl, cl0, Hp |].
  rewrite N0 in C. destruct (failing (nth_fate 3 w)).
  - destruct C as (-> & rd1 & wr1).
    split; [rewrite rd1; exact rd0 |]. split; [rewrite wr1; exact wr0 |].
    rewrite l. cbn [calls wr set_child_pid set_signal_received].
    rewrite l0, <- app_assoc. reflexivity.
  - destruct C as ((flags & ->) & rd1 & wr1).
    split; [exact rd1 |]. split; [exact wr1 |]. exists flags.
    rewrite l. cbn [calls wr set_child_pid set_signal_received].
    rewrite l0, <- app_assoc. reflexivity.
Qed.

Lemma spawn_failure_witness :
  exists w',
    launchJvm 0 ["/bin/echo"%string] no_more_processes = Some (-1, w') /\
    child_pid w' = -1 /\
    (proc no_more_processes = None -> proc w' = None) /\
    if failing (nth_fate 3 no_more_processes)
    then rd_open w' = rd_open no_more_processes /\
         wr_open w' = wr_open no_more_processes /\
         calls w' =
           calls no_more_processes ++
           [Sigaction SIGINT Handler; Sigaction SIGTERM Handler;
            Sigaction SIGPIPE Ignore; Pipe]
    else rd_open w' = false /\ wr_open w' = false /\
         exists flags,
           calls w' =
             calls no_more_processes ++
             [Sigaction SIGINT Handler; Sigaction SIGTERM Handler;
              Sigaction SIGPIPE Ignore; Pipe; FcntlGetfl PipeRd;
              FcntlSetfl PipeRd flags; Fork; Close PipeRd; Close PipeWr].
Proof.
  apply (spawn_failure 0 ["/bin/echo"%string] no_more_processes);
    [reflexivity | reflexivity | reflexivity | right; reflexivity].
Defined.

(** ** The JNI entry point *)

Lemma fill_args_ok jargs :
  forall args,
    ~ In (JString None) jargs ->
    fill_args jargs args = Some (args ++ map argument jargs).
Proof.
  induction jargs as [|e rest IH]; intros args H; cbn [fill_args map].
  - rewrite app_nil_r. reflexivity.
  - assert (Hr : ~ In (JString None) rest) by (intro; apply H; right; assumption).
    destruct e as [|[s|]].
    + rewrite (IH _ Hr), <- app_assoc. reflexivity.
    + rewrite (IH _ Hr), <- app_assoc. reflexivity.
    + exfalso. apply H. left. reflexivity.
Qed.

Lemma fill_args_fails jargs :
  forall args, In (JString None) jargs -> fill_args jargs args = None.
Proof.
  induction jargs as [|e rest IH]; intros args H; [destruct H |].
  cbn [fill_args]. destruct H as [-> | H]; [reflexivity |].
  destruct e as [|[s|]]; [apply IH, H | apply IH, H | reflexivity].
Qed.

(** C10.  [nativeLaunchJvm] returns -1 without launching exactly for an
    empty array and for an array with a string whose UTF conversion
    fails.  Every other array is launched, null elements or not: the
    argument vector handed to [launchJvm] has the empty string where the
    array has null and the converted string elsewhere, in the array's
    order. *)
Theorem null_arguments_launched
        (fuel : nat) (jargs : list jelement) (w : world) :
  (jargs = [] \/ In (JString None) jargs ->
   nativeLaunchJvm fuel jargs w = Some (-1, w)) /\
  (jargs <> [] -> ~ In (JString None) jargs ->
   nativeLaunchJvm fuel jargs w = launchJvm fuel (map argument jargs) w) /\
  (forall i, nth_error jargs i = Some JNull ->
             nth_error (map argument jargs) i = Some ""%string).
Proof.
  unfold nativeLaunchJvm. repeat split.
  - intros [-> | H]; [reflexivity |].
    destruct (Z.of_nat (List.length jargs) <=? 0); [reflexivity |].
    rewrite (fill_args_fails _ _ H). reflexivity.
  - intros Hne Hok.
    destruct (Z.leb_spec (Z.of_nat (List.length jargs)) 0) as [Hl | _].
    + destruct jargs; [contradiction | simpl in Hl; lia].
    + rewrite (fill_args_ok _ _ Hok). reflexivity.
  - intros i Hi. rewrite nth_error_map, Hi. reflexivity.
Qed.

(** [{"/bin/echo", null}] is launched as [/bin/echo ""]. *)
Lemma null_arguments_launched_witness :
  nativeLaunchJvm 1 [JString (Some "/bin/echo"%string); JNull] echo_hello =
  launchJvm 1 ["/bin/echo"; ""]%string echo_hello.
Proof.
  apply (proj1 (proj2 (null_arguments_launched
                         1 [JString (Some "/bin/echo"%string); JNull]
                         echo_hello))).
  - discriminate.
  - intros [H | [H | []]]; discriminate H.
Defined.

(** ** Two launches that go wrong *)

(** Once the child has been reaped, the code after the loop can only
    fail: unless the launch is cancelled, its blocking [waitpid] finds no
    child, and the result is -1. *)
Lemma reaped_twice (pid : Z) (w : world) :
  proc w = None ->
  signal_received (snd (runState (close PipeRd) w)) = 0 ->
  exists w', after_loop pid w = Some (-1, w').
Proof.
  intros Hp Hs. unfold after_loop. rewrite Hs. cbn [Z.eqb negb].
  destruct (close_made PipeRd w) as (Mc & _ & _). cbn zeta in Mc.
  apply (md_childless Mc) in Hp.
  set (w1 := snd (runState (close PipeRd) w)) in *.
  unfold reap, waitpid_block. rewrite block_until_exit_eq.
  set (w2 := snd (runState (log (Waitpid pid 0)) w1)).
  assert (Hp2 : proc (snd (runState turn w2)) = None)
    by (apply (turn_childless w2); exact Hp).
  assert (Hc : runState (collect pid None) (snd (runState turn w2)) =
               ((-1, 0), set_errno ECHILD (snd (runState turn w2))))
    by reflexivity.
  unfold block_step. rewrite Hp2, Hc.
  destruct (fst (runState turn w2)) as [| e | k];
    try (destruct (pid =? Z.pos (kpid (snd (runState turn w2)))));
    eexists; reflexivity.
Qed.

(** C1, the code at the failing input.  The child ends normally with
    status 7 and nothing cancels the launch.  The [waitpid(WNOHANG)] of
    the tick reaps the child and throws its status away; the blocking
    [waitpid] after the loop then has no child to wait for, fails with
    ECHILD (the [errno] of that call, before the [perror] that follows
    it), and [launchJvm] returns -1, not 7. *)
Theorem exit_status_lost :
  exists w',
    launchJvm 1 ["/bin/sh"; "-c"; "sleep 5 & exit 7"]%string exit_seen_by_tick
      = Some (-1, w') /\
    calls w' =
      [ Sigaction SIGINT Handler; Sigaction SIGTERM Handler;
        Sigaction SIGPIPE Ignore; Pipe; FcntlGetfl PipeRd;
        FcntlSetfl PipeRd O_NONBLOCK; Fork; Close PipeWr;
        Poll PipeRd POLLIN 100; Waitpid 1234 WNOHANG;
        Close PipeRd; Waitpid 1234 0 ] /\
    signal_received w' = 0 /\
    errno w' = ECHILD /\
    WIFSIGNALED (wait_status (Exited 7)) = false /\
    WEXITSTATUS (wait_status (Exited 7)) = 7.
Proof.
  eexists. split; [vm_compute; reflexivity |].
  repeat split.
Qed.

(** C2, the code at the failing input.  [poll] reports data and hang-up
    together.  The loop reads one buffer of 1024 bytes, forwards it, and
    leaves on the hang-up test; the newline stays in the pipe, which is
    then closed.  The caller receives 1024 of the 1025 bytes, and the
    launch reports success. *)
Theorem buffered_output_lost :
  exists w',
    launchJvm 1 ["/bin/cat"; "long_line.txt"]%string quick_printer
      = Some (0, w') /\
    out w' = firstn 1024 long_line /\
    pipe_data w' = ["010"%byte] /\
    out w' <> long_line /\
    calls w' =
      [ Sigaction SIGINT Handler; Sigaction SIGTERM Handler;
        Sigaction SIGPIPE Ignore; Pipe; FcntlGetfl PipeRd;
        FcntlSetfl PipeRd O_NONBLOCK; Fork; Close PipeWr;
        Poll PipeRd POLLIN 100; Read PipeRd 1024;
        Write Stdout (firstn 1024 long_line);
        Close PipeRd; Waitpid 1234 0 ].
Proof.
  eexists. split; [vm_compute; reflexivity |].
  split; [vm_compute; reflexivity |].
  split; [reflexivity |].
  split; [| vm_compute; reflexivity].
  intros H. apply (f_equal (@List.length byte)) in H.
  vm_compute in H. discriminate H.
Qed.

(** ** A [write] that fails *)

Lemma write_fails buf w e :
  fate w = Fail e ->
  fst (runState (write Stdout buf) w) = -1 /\
  errno (snd (runState (write Stdout buf) w)) = e /\
  out (snd (runState (write Stdout buf) w)) = out w.
Proof.
  intros F. unfold write. rewrite run_sys, F. simpl.
  split; [reflexivity |]. split; [reflexivity |].
  apply (turn_out (logged (Write Stdout buf) w)).
Qed.

Lemma deliver_failed buf w e :
  fate w = Fail e ->
  runState (deliver buf) w =
  (if e =? EPIPE then Break else Continue,
   snd (runState (write Stdout buf) w)).
Proof.
  intros F. destruct (write_fails buf w F) as (R & E & _).
  unfold deliver. rewrite run_bind, R, Z.eqb_refl.
  rewrite run_bind. cbn [rd runState fst snd]. rewrite E.
  destruct (e =? EPIPE); reflexivity.
Qed.

Lemma poll_out f ev timeout : keeps same_out (poll f ev timeout).
Proof.
  unfold poll. apply sys_keeps;
    [exact same_out_trans | reflexivity | apply turn_out |].
  intros [| ? | ?]; keeps_tac.
Qed.

Lemma read_out f count : keeps same_out (read f count).
Proof.
  unfold read. apply sys_keeps;
    [exact same_out_trans | reflexivity | apply turn_out |].
  intros [| ? | ?]; keeps_tac.
Qed.

(** C5, the claim as stated, fails: the third call of this pass, the
    [write], fails with EIO; nothing reaches the output, the bytes read
    are gone from the pipe, and the pass ends with "go round again". *)
Lemma write_error_survived :
  nth_fate 2 stdout_trouble = Fail EIO /\
  exists w',
    runState (iteration 1234) stdout_trouble = (Continue, w') /\
    calls w' =
      [ Poll PipeRd POLLIN 100; Read PipeRd 1024;
        Write Stdout hello ] /\
    errno w' = EIO /\ out w' = [] /\ pipe_data w' = [].
Proof.
  split; [reflexivity |].
  eexists. split; [vm_compute; reflexivity |].
  repeat split.
Qed.

(** C5, amended.  Take a pass in which [poll] reports the pipe readable
    with the flag not set, [read] returns some bytes, and the [write] of
    them fails with error [e].  Nothing reaches the output.  If [e] is
    EPIPE the pass ends with [break].  Any other error is ignored: the
    pass goes on to the hang-up test as it does after a write that
    worked, so it ends with [break] if [poll] reported an error or a
    hang-up and goes round again otherwise. *)
Theorem write_failure_outcome (pid : Z) (w : world) (e : Z) :
  let p := runState (poll PipeRd POLLIN 100) w in
  let revents := snd (fst p) in
  let rdr := runState (read PipeRd buffer_size) (snd p) in
  let w' := snd (runState (write Stdout (snd (fst rdr))) (snd rdr)) in
  signal_received (snd p) = 0 ->
  fst (fst p) <> -1 ->
  fst (fst p) <> 0 ->
  Z.land revents POLLIN <> 0 ->
  fst (fst rdr) > 0 ->
  fate (snd rdr) = Fail e ->
  runState (iteration pid) w =
    (if e =? EPIPE then Break
     else if negb (Z.land revents (Z.lor POLLERR POLLHUP) =? 0) then Break
          else Continue,
     w') /\
  out w' = out w.
Proof.
  cbn zeta. intros Hs Hr1 Hr0 Hin Hn F. split.
  - rewrite iteration_eq. cbn zeta. rewrite Hs. cbn [Z.eqb negb].
    destruct (Z.eqb_spec (fst (fst (runState (poll PipeRd POLLIN 100) w))) (-1));
      [contradiction |].
    destruct (Z.eqb_spec (fst (fst (runState (poll PipeRd POLLIN 100) w))) 0);
      [contradiction |].
    rewrite run_bind. unfold forward.
    destruct (Z.eqb_spec
                (Z.land (snd (fst (runState (poll PipeRd POLLIN 100) w))) POLLIN) 0);
      [contradiction |]. cbn [negb].
    rewrite run_bind.
    destruct (runState (read PipeRd buffer_size) _) as [[len buf] w2].
    cbn [fst snd] in *.
    destruct (Z.gtb_spec len 0); [| lia].
    rewrite (deliver_failed buf w2 F). cbn [fst snd].
    destruct (e =? EPIPE); [reflexivity |].
    destruct (negb _); reflexivity.
  - destruct (write_fails (snd (fst (runState (read PipeRd buffer_size)
                 (snd (runState (poll PipeRd POLLIN 100) w)))))
                (snd (runState (read PipeRd buffer_size)
                 (snd (runState (poll PipeRd POLLIN 100) w)))) F) as (_ & _ & O).
    rewrite O. rewrite (read_out PipeRd buffer_size _).
    apply (poll_out PipeRd POLLIN 100 w).
Qed.

Lemma write_failure_outcome_witness :
  runState (iteration 1234) stdout_trouble =
    (Continue,
     snd (runState
            (write Stdout
               (snd (fst (runState (read PipeRd buffer_size)
                  (snd (runState (poll PipeRd POLLIN 100) stdout_trouble))))))
            (snd (runState (read PipeRd buffer_size)
               (snd (runState (poll PipeRd POLLIN 100) stdout_trouble)))))) /\
  out (snd (runState
            (write Stdout
               (snd (fst (runState (read PipeRd buffer_size)
                  (snd (runState (poll PipeRd POLLIN 100) stdout_trouble))))))
            (snd (runState (read PipeRd buffer_size)
               (snd (runState (poll PipeRd POLLIN 100) stdout_trouble))))))
  = out stdout_trouble.
Proof.
  apply (@write_failure_outcome 1234 stdout_trouble EIO);
    [reflexivity | discriminate | discriminate | discriminate
    | reflexivity | reflexivity].
Defined.

(** * Further properties *)

(** ** The logger *)

Lemma sapp_nil_r (s : string) : (s ++ "")%string = s.
Proof. induction s as [|c s IH]; simpl; [| rewrite IH]; reflexivity. Qed.

Lemma sapp_assoc (a b c : string) :
  ((a ++ b) ++ c)%string = (a ++ (b ++ c))%string.
Proof. induction a as [|x a IH]; simpl; [| rewrite IH]; reflexivity. Qed.

Lemma sapp_inv_head (p a b : string) :
  (p ++ a)%string = (p ++ b)%string -> a = b.
Proof.
  induction p as [|x p IH]; simpl; intros H; [exact H |].
  injection H as H. apply IH, H.
Qed.

(** A value of [LogType] that is none of the enumerators. *)
Definition unnamed (type : AndroidLog.LogType) : Prop :=
  (AndroidLog.VERBOSE < type)%N.

Lemma LogType_cases (type : AndroidLog.LogType) :
  type = AndroidLog.DEBUG \/ type = AndroidLog.INFO \/
  type = AndroidLog.WARNING \/ type = AndroidLog.ERROR \/
  type = AndroidLog.SUCCESS \/ type = AndroidLog.VERBOSE \/ unnamed type.
Proof.
  unfold unnamed, AndroidLog.DEBUG, AndroidLog.INFO, AndroidLog.WARNING,
    AndroidLog.ERROR, AndroidLog.SUCCESS, AndroidLog.VERBOSE.
  lia.
Qed.

(** What [log_output] puts in front of the message. *)
Definition log_prefix (type : AndroidLog.LogType) : string :=
  if N.eqb type AndroidLog.SUCCESS then AndroidLog.check_mark
  else if negb (N.eqb type AndroidLog.INFO)
       then ("[" ++ AndroidLog.getLogTypeName type ++ "] ")%string
       else ""%string.

(** The [default:] branches: an unnamed value is logged as INFO is, but
    with the name in front. *)
Lemma unnamed_logged type :
  unnamed type ->
  AndroidLog.getAndroidLogLevel type = AndroidLog.ANDROID_LOG_INFO /\
  log_prefix type = "[INFO] "%string.
Proof.
  unfold unnamed, AndroidLog.VERBOSE. intros H.
  assert (E0 : N.eqb type AndroidLog.DEBUG = false)
    by (apply N.eqb_neq; unfold AndroidLog.DEBUG; lia).
  assert (E1 : N.eqb type AndroidLog.INFO = false)
    by (apply N.eqb_neq; unfold AndroidLog.INFO; lia).
  assert (E2 : N.eqb type AndroidLog.WARNING = false)
    by (apply N.eqb_neq; unfold AndroidLog.WARNING; lia).
  assert (E3 : N.eqb type AndroidLog.ERROR = false)
    by (apply N.eqb_neq; unfold AndroidLog.ERROR; lia).
  assert (E4 : N.eqb type AndroidLog.SUCCESS = false)
    by (apply N.eqb_neq; unfold AndroidLog.SUCCESS; lia).
  assert (E5 : N.eqb type AndroidLog.VERBOSE = false)
    by (apply N.eqb_neq; unfold AndroidLog.VERBOSE; lia).
  unfold AndroidLog.getAndroidLogLevel, log_prefix, AndroidLog.getLogTypeName.
  rewrite E0, E1, E2, E3, E4, E5. split; reflexivity.
Qed.

Lemma log_prefix_c_str type :
  AndroidLog.c_str (log_prefix type) = log_prefix type.
Proof.
  destruct (LogType_cases type)
    as [-> | [-> | [-> | [-> | [-> | [-> | U]]]]]]; try reflexivity.
  rewrite (proj2 (unnamed_logged U)). reflexivity.
Qed.

Lemma c_str_app (p m : string) :
  AndroidLog.c_str p = p ->
  AndroidLog.c_str (p ++ m) = (p ++ AndroidLog.c_str m)%string.
Proof.
  induction p as [|x p IH]; simpl; intros H; [reflexivity |].
  destruct (Ascii.eqb x Ascii.zero); [discriminate H |].
  injection H as H. rewrite (IH H). reflexivity.
Qed.

Lemma log_output_text type message :
  AndroidLog.log_output type message =
  [ {| AndroidLog.priority := AndroidLog.getAndroidLogLevel type;
       AndroidLog.tag := AndroidLog.LOG_TAG;
       AndroidLog.text :=
         (log_prefix type ++ AndroidLog.c_str message)%string |} ].
Proof.
  unfold AndroidLog.log_output. cbv zeta.
  rewrite <- (@c_str_app _ message (log_prefix_c_str type)).
  unfold log_prefix.
  destruct (N.eqb type AndroidLog.SUCCESS); [reflexivity |].
  destruct (N.eqb type AndroidLog.INFO); cbn [negb];
    rewrite ?sapp_assoc; reflexivity.
Qed.

(** X1.  The record of a call tells how the type is logged and the
    message up to its first NUL, with these exceptions.  The values that
    are no enumerator are all logged alike, at priority INFO under the
    prefix "[INFO] ".  And INFO, whose message is logged bare, shares its
    priority with SUCCESS and with those values: an INFO message that
    begins with the prefix of one of them gives the record of that type
    with the rest of the message. *)
Theorem log_record_decodes (t1 t2 : AndroidLog.LogType) (m1 m2 : string) :
  AndroidLog.log_output t1 m1 = AndroidLog.log_output t2 m2 ->
  ((t1 = t2 \/ unnamed t1 /\ unnamed t2) /\
   AndroidLog.c_str m1 = AndroidLog.c_str m2) \/
  (t1 = AndroidLog.INFO /\ (t2 = AndroidLog.SUCCESS \/ unnamed t2) /\
   AndroidLog.c_str m1 = (log_prefix t2 ++ AndroidLog.c_str m2)%string) \/
  (t2 = AndroidLog.INFO /\ (t1 = AndroidLog.SUCCESS \/ unnamed t1) /\
   AndroidLog.c_str m2 = (log_prefix t1 ++ AndroidLog.c_str m1)%string).
Proof.
  rewrite !log_output_text. intros H.
  injection H as Hl Ht.
  destruct (LogType_cases t1)
    as [-> | [-> | [-> | [-> | [-> | [-> | U1]]]]]];
    destruct (LogType_cases t2)
      as [-> | [-> | [-> | [-> | [-> | [-> | U2]]]]]];
    try (destruct (unnamed_logged U1) as [L1 P1]; rewrite L1 in Hl);
    try (destruct (unnamed_logged U2) as [L2 P2]; rewrite L2 in Hl);
    try discriminate Hl;
    try (left; split; [left; reflexivity | exact (sapp_inv_head _ _ _ Ht)]);
    try (right; left;
         split; [reflexivity | split; [left; reflexivity | exact Ht]]);
    try (right; right;
         split; [reflexivity
                | split; [left; reflexivity | symmetry; exact Ht]]);
    try (right; left;
         split; [reflexivity | split; [right; exact U2 | exact Ht]]);
    try (right; right;
         split; [reflexivity | split; [right; exact U1 | symmetry; exact Ht]]);
    try (rewrite ?P1, ?P2 in Ht; discriminate Ht).
  left. split; [right; split; assumption |].
  rewrite P1, P2 in Ht. exact (sapp_inv_head _ _ _ Ht).
Qed.

(** A value that is no enumerator, and the INFO message that spells out
    what is put in front of its message. *)
Lemma log_record_decodes_witness :
  ((7%N = AndroidLog.INFO \/ unnamed 7%N /\ unnamed AndroidLog.INFO) /\
   AndroidLog.c_str "x" = AndroidLog.c_str "[INFO] x") \/
  (7%N = AndroidLog.INFO /\
   (AndroidLog.INFO = AndroidLog.SUCCESS \/ unnamed AndroidLog.INFO) /\
   AndroidLog.c_str "x" =
   (log_prefix AndroidLog.INFO ++ AndroidLog.c_str "[INFO] x")%string) \/
  (AndroidLog.INFO = AndroidLog.INFO /\
   (7%N = AndroidLog.SUCCESS \/ unnamed 7%N) /\
   AndroidLog.c_str "[INFO] x" =
   (log_prefix 7%N ++ AndroidLog.c_str "x")%string).
Proof.
  apply (@log_record_decodes 7%N AndroidLog.INFO "x" "[INFO] x").
  reflexivity.
Defined.

(** X2.  The second record of [println_all], meant as an empty line, is
    empty only for INFO: for every other type it is the bare prefix. *)
Theorem println_all_trailer (type : AndroidLog.LogType) (args : list string) :
  exists e1 e2,
    AndroidLog.println_all type args = [e1; e2] /\
    AndroidLog.priority e2 = AndroidLog.priority e1 /\
    AndroidLog.text e2 = log_prefix type /\
    (AndroidLog.text e2 = ""%string <-> type = AndroidLog.INFO).
Proof.
  unfold AndroidLog.println_all, AndroidLog.print_all.
  rewrite !log_output_text. cbn [app].
  eexists. eexists. split; [reflexivity |].
  cbn [AndroidLog.priority AndroidLog.text AndroidLog.c_str].
  split; [reflexivity |]. split; [apply sapp_nil_r |].
  rewrite sapp_nil_r.
  destruct (LogType_cases type)
    as [-> | [-> | [-> | [-> | [-> | [-> | U]]]]]];
    try (split; intros H; try reflexivity; discriminate H).
  rewrite (proj2 (unnamed_logged U)).
  split; intros H; [discriminate H |].
  exfalso. revert U. rewrite H. unfold unnamed, AndroidLog.VERBOSE,
    AndroidLog.INFO. lia.
Qed.

(** The loop with the flag [first] puts the separator between the items
    and nowhere else. *)
Lemma add_with_sep_rest sep items :
  forall oss,
    fst (fold_left (AndroidLog.add_with_sep sep) items (oss, false)) =
    (oss ++ fold_right (fun item r => sep ++ item ++ r) "" items)%string.
Proof.
  induction items as [|x xs IH]; intros oss; cbn [fold_left fold_right fst].
  - rewrite sapp_nil_r. reflexivity.
  - unfold AndroidLog.add_with_sep at 2. rewrite IH, !sapp_assoc. reflexivity.
Qed.

Lemma concat_rest sep x xs :
  String.concat sep (x :: xs) =
  (x ++ fold_right (fun item r => sep ++ item ++ r) "" xs)%string.
Proof.
  revert x. induction xs as [|y ys IH]; intros x.
  - cbn. rewrite sapp_nil_r. reflexivity.
  - change (String.concat sep (x :: y :: ys))
      with (x ++ sep ++ String.concat sep (y :: ys))%string.
    rewrite IH. reflexivity.
Qed.

Lemma add_with_sep_joins sep items oss :
  fst (fold_left (AndroidLog.add_with_sep sep) items (oss, true)) =
  (oss ++ String.concat sep items)%string.
Proof.
  destruct items as [|x xs]; cbn [fold_left fst].
  - cbn. rewrite sapp_nil_r. reflexivity.
  - unfold AndroidLog.add_with_sep at 2.
    rewrite add_with_sep_rest, concat_rest, sapp_assoc. reflexivity.
Qed.

(** X3.  [print_separated] logs the items joined by the separator: no
    separator before the first item or after the last, none at all for
    fewer than two items. *)
Theorem print_separated_joins
        (type : AndroidLog.LogType) (separator : string) (args : list string) :
  AndroidLog.print_separated type separator args =
  AndroidLog.log_output type (String.concat separator args).
Proof.
  unfold AndroidLog.print_separated. rewrite add_with_sep_joins. reflexivity.
Qed.

(** X4.  [print_container] logs [name: [a, b, c]]: the items joined by a
    comma and a space, between brackets, after the name and a colon. *)
Theorem print_container_format
        (type : AndroidLog.LogType) (container : list string) (name : string) :
  AndroidLog.print_container type container name =
  AndroidLog.log_output
    type (name ++ ": [" ++ String.concat ", " container ++ "]")%string.
Proof.
  unfold AndroidLog.print_container. cbv zeta.
  rewrite add_with_sep_joins, !sapp_assoc. reflexivity.
Qed.

(** ** Answers of the system calls, spelled out *)

Lemma poll_run f ev timeout w :
  let wt := turned (Poll f ev timeout) w in
  let revents :=
    Z.lor (if nonempty (pipe_data wt) then Z.land ev POLLIN else 0)
          (if writers wt then 0 else POLLHUP) in
  runState (poll f ev timeout) w =
  match fate w with
  | Fail e => ((-1, 0), set_errno e wt)
  | _ => ((if revents =? 0 then 0 else 1, revents), wt)
  end.
Proof.
  cbv zeta. unfold poll. rewrite run_sys. fold (turned (Poll f ev timeout) w).
  destruct (fate w); reflexivity.
Qed.

Lemma waitpid_nohang_run pid w :
  let wt := turned (Waitpid pid WNOHANG) w in
  runState (waitpid_nohang pid) w =
  match fate w with
  | Fail e => ((-1, 0), set_errno e wt)
  | _ =>
      if pid =? Z.pos (kpid wt) then
        match proc wt with
        | Some Running => ((0, 0), wt)
        | Some (Zombie st) => ((pid, wait_status st), set_proc None wt)
        | None => ((-1, 0), set_errno ECHILD wt)
        end
      else ((-1, 0), set_errno ECHILD wt)
  end.
Proof.
  cbv zeta. unfold waitpid_nohang. rewrite run_sys.
  fold (turned (Waitpid pid WNOHANG) w).
  destruct (fate w); try reflexivity;
    rewrite !run_bind; cbn [rd runState fst snd];
    (destruct (pid =? Z.pos (kpid (turned (Waitpid pid WNOHANG) w)));
     [destruct (proc (turned (Waitpid pid WNOHANG) w)) as [[|st]|] |]);
    reflexivity.
Qed.

Lemma read_run f count w :
  let wt := turned (Read f count) w in
  runState (read f count) w =
  match fate w with
  | Fail e => ((-1, []), set_errno e wt)
  | _ =>
      match pipe_data wt with
      | [] => if writers wt then ((-1, []), set_errno EAGAIN wt)
              else ((0, []), wt)
      | _ => ((Z.of_nat (List.length (firstn count (pipe_data wt))),
               firstn count (pipe_data wt)),
              set_pipe_data (skipn count (pipe_data wt)) wt)
      end
  end.
Proof.
  cbv zeta. unfold read. rewrite run_sys. fold (turned (Read f count) w).
  destruct (fate w); try reflexivity;
    rewrite !run_bind; cbn [rd runState fst snd];
    (destruct (pipe_data (turned (Read f count) w));
     [destruct (writers (turned (Read f count) w)) |]); reflexivity.
Qed.

Lemma write_run f buf w :
  let wt := turned (Write f buf) w in
  runState (write f buf) w =
  match fate w with
  | Fail e => (-1, set_errno e wt)
  | Partial k =>
      (Z.of_nat (List.length (firstn k buf)),
       set_out (out wt ++ firstn k buf) wt)
  | Normal => (Z.of_nat (List.length buf), set_out (out wt ++ buf) wt)
  end.
Proof.
  cbv zeta. unfold write. rewrite run_sys. fold (turned (Write f buf) w).
  destruct (fate w); reflexivity.
Qed.

Lemma close_run f w :
  runState (close f) w =
  (0, match f with
      | PipeRd => set_rd_open false (turned (Close f) w)
      | PipeWr => set_wr_open false (turned (Close f) w)
      | _ => turned (Close f) w
      end).
Proof.
  unfold close. rewrite run_sys. fold (turned (Close f) w).
  destruct f; reflexivity.
Qed.

(** ** A [poll] that fails *)

(** X5.  When [poll] fails and the flag is not set, the pass makes no
    other call: an interrupted wait (EINTR) is retried in the next pass,
    any other error ends the loop.  When the flag is set, the pass ends
    the loop whatever the error. *)
Theorem poll_failure_outcome (pid : Z) (w : world) (e : Z) :
  fate w = Fail e ->
  let w1 := snd (runState (poll PipeRd POLLIN 100) w) in
  runState (iteration pid) w =
    (if negb (signal_received w1 =? 0) then Break
     else if e =? EINTR then Continue else Break,
     w1) /\
  calls w1 = calls w ++ [Poll PipeRd POLLIN 100].
Proof.
  intros F. cbv zeta. split.
  - rewrite iteration_eq. cbv zeta.
    pose proof (poll_run PipeRd POLLIN 100 w) as Hp. cbv zeta in Hp.
    rewrite F in Hp. rewrite Hp. cbn [fst snd].
    destruct (negb _) eqn:E; [reflexivity |].
    rewrite Z.eqb_refl, run_bind. cbn [rd runState fst snd errno set_errno].
    destruct (e =? EINTR); [| reflexivity].
    rewrite run_bind. cbn [rd runState fst snd].
    rewrite E. reflexivity.
  - apply (ac_calls (poll_after PipeRd POLLIN 100 w)).
Qed.

(** The wait is interrupted by a signal that is not the supervisor's
    business. *)
Definition interrupted_wait : world :=
  {| child_pid := 1234; signal_received := 0; errno := 0; kpid := 1234;
     proc := Some Running; pipe_data := []; child_wr := true;
     rd_open := true; wr_open := false; out := []; child_calls := [];
     kills := []; calls := []; sched := [eventless (Fail EINTR)] |}.

Lemma poll_failure_outcome_witness :
  runState (iteration 1234) interrupted_wait =
    (Continue, snd (runState (poll PipeRd POLLIN 100) interrupted_wait)) /\
  calls (snd (runState (poll PipeRd POLLIN 100) interrupted_wait)) =
    calls interrupted_wait ++ [Poll PipeRd POLLIN 100].
Proof.
  apply (@poll_failure_outcome 1234 interrupted_wait EINTR). reflexivity.
Defined.

(** ** Failure to install the handlers *)

(** The [sigaction] calls [setup_signal_handlers] makes: it stops at the
    first that fails. *)
Definition attempts (w : world) : nat :=
  if failing (nth_fate 0 w) then 1
  else if failing (nth_fate 1 w) then 2 else 3.

Definition three_sigactions : list call :=
  [Sigaction SIGINT Handler; Sigaction SIGTERM Handler;
   Sigaction SIGPIPE Ignore].

Lemma setup_fails w :
  failing (nth_fate 0 w) || failing (nth_fate 1 w) || failing (nth_fate 2 w)
  = true ->
  fst (runState setup_signal_handlers w) = -1 /\
  made (firstn (attempts w) three_sigactions) w
       (snd (runState setup_signal_handlers w)) /\
  same_fds w (snd (runState setup_signal_handlers w)).
Proof.
  intros F. unfold setup_signal_handlers, attempts.
  destruct (sigaction_plain SIGINT Handler w) as (R1 & M1 & D1).
  rewrite fate_nth in R1. rewrite run_bind, R1.
  destruct (failing (nth_fate 0 w)) eqn:F0.
  { rewrite Z.eqb_refl. cbn [firstn three_sigactions].
    split; [reflexivity |]. split; [exact M1 | exact D1]. }
  cbn [Z.eqb orb] in *.
  set (w1 := snd (runState (sigaction SIGINT Handler) w)) in *.
  destruct (sigaction_plain SIGTERM Handler w1) as (R2 & M2 & D2).
  rewrite fate_nth, (nth_fate_made 0 M1) in R2. cbn [List.length Nat.add] in R2.
  rewrite run_bind, R2.
  pose proof (made_trans M1 M2) as M12. cbn [app] in M12.
  pose proof (same_fds_trans D1 D2) as D12.
  destruct (failing (nth_fate 1 w)) eqn:F1.
  { rewrite Z.eqb_refl. cbn [firstn three_sigactions].
    split; [reflexivity |]. split; [exact M12 | exact D12]. }
  cbn [Z.eqb orb] in *.
  set (w2 := snd (runState (sigaction SIGTERM Handler) w1)) in *.
  destruct (sigaction_plain SIGPIPE Ignore w2) as (R3 & M3 & D3).
  rewrite fate_nth, (nth_fate_made 0 M12) in R3. cbn [List.length Nat.add] in R3.
  rewrite F in R3. rewrite run_bind, R3, Z.eqb_refl.
  cbn [firstn three_sigactions].
  split; [reflexivity |]. split.
  - apply (made_trans M12 M3).
  - eapply same_fds_trans; eassumption.
Qed.

(** X6.  If one of the three [sigaction] calls fails, [launchJvm] returns
    -1 at once: no later [sigaction], no [pipe] and no [fork] is
    attempted, no child comes into being and no descriptor changes.  The
    two globals are not reset either: [child_pid] is what it was, and a
    flag that was set stays set. *)
Theorem handler_setup_failure (fuel : nat) (argv : list string) (w : world) :
  failing (nth_fate 0 w) || failing (nth_fate 1 w) || failing (nth_fate 2 w)
  = true ->
  exists w',
    launchJvm fuel argv w = Some (-1, w') /\
    calls w' = calls w ++ firstn (attempts w) three_sigactions /\
    child_pid w' = child_pid w /\
    (signal_received w <> 0 -> signal_received w' <> 0) /\
    (proc w = None -> proc w' = None) /\
    rd_open w' = rd_open w /\ wr_open w' = wr_open w.
Proof.
  intros F. destruct (setup_fails w F) as (R & [[a b d] cl l s] & [r1 r2]).
  unfold launchJvm.
  destruct (runState setup_signal_handlers w) as [r0 w0]. cbn [fst snd] in *.
  subst r0. rewrite Z.eqb_refl. exists w0.
  repeat split; assumption.
Qed.

(** The very first [sigaction] is refused. *)
Definition no_handlers : world := boot [eventless (Fail 22)].

Lemma handler_setup_failure_witness :
  exists w',
    launchJvm 0 ["/bin/echo"%string] no_handlers = Some (-1, w') /\
    calls w' =
      calls no_handlers ++ firstn (attempts no_handlers) three_sigactions /\
    child_pid w' = child_pid no_handlers /\
    (signal_received no_handlers <> 0 -> signal_received w' <> 0) /\
    (proc no_handlers = None -> proc w' = None) /\
    rd_open w' = rd_open no_handlers /\ wr_open w' = wr_open no_handlers.
Proof.
  apply (handler_setup_failure 0 ["/bin/echo"%string] no_handlers).
  reflexivity.
Defined.

(** ** What [launchJvm] can return *)

Lemma WEXITSTATUS_low_byte status :
  WEXITSTATUS status = Z.shiftr status 8 mod 256.
Proof.
  unfold WEXITSTATUS. rewrite Z.shiftr_land.
  change (Z.shiftr 65280 8) with (Z.ones 8).
  rewrite Z.land_ones by lia. reflexivity.
Qed.

Lemma WEXITSTATUS_range status : 0 <= WEXITSTATUS status <= 255.
Proof.
  rewrite WEXITSTATUS_low_byte.
  pose proof (Z.mod_pos_bound (Z.shiftr status 8) 256). lia.
Qed.

Lemma exited_not_signaled c : WIFSIGNALED (wait_status (Exited c)) = false.
Proof.
  unfold WIFSIGNALED, WTERMSIG, wait_status.
  change 127 with (Z.ones 7). rewrite Z.land_ones by lia.
  rewrite Z.shiftl_mul_pow2 by lia.
  replace (Z.land c 255 * 2 ^ 8 + 1) with (1 + (Z.land c 255 * 2) * 2 ^ 7)
    by (change (2 ^ 8) with 256; change (2 ^ 7) with 128; lia).
  rewrite Z_mod_plus_full. reflexivity.
Qed.

Lemma exited_status c : WEXITSTATUS (wait_status (Exited c)) = Z.land c 255.
Proof.
  rewrite WEXITSTATUS_low_byte. unfold wait_status.
  rewrite Z.shiftr_shiftl_l by lia. cbn [Z.sub Z.add Z.opp Z.pos_sub].
  rewrite Z.shiftl_0_r.
  change 255 with (Z.ones 8). rewrite Z.land_ones by lia.
  apply Z.mod_mod. discriminate.
Qed.

Lemma signaled_is_signaled s :
  1 <= s <= 126 -> WIFSIGNALED (wait_status (Signaled s)) = true.
Proof.
  intros H. unfold WIFSIGNALED, WTERMSIG, wait_status.
  change 127 with (Z.ones 7). rewrite !Z.land_ones by lia.
  change (2 ^ 7) with 128.
  rewrite (Z.mod_small s) by lia. rewrite Z.mod_small by lia.
  apply Z.leb_le. lia.
Qed.

Lemma shutdown_result pid w :
  fst (runState (shutdown pid) w) = -1 /\
  child_pid (snd (runState (shutdown pid) w)) = -1.
Proof. unfold shutdown. rewrite !run_bind. split; reflexivity. Qed.

Lemma after_loop_result pid w r w' :
  after_loop pid w = Some (r, w') ->
  (r = -1 \/ 0 <= r <= 255) /\ child_pid w' = -1.
Proof.
  unfold after_loop. destruct (negb _).
  - intros H. apply some_pair in H as [-> ->].
    destruct (shutdown_result pid (snd (runState (close PipeRd) w))) as [R C].
    split; [left; exact R | exact C].
  - unfold reap.
    destruct (waitpid_block pid _) as [[[res status] w1]|]; [| discriminate].
    destruct (res =? -1); [| destruct (WIFSIGNALED status)];
      intros H; apply some_pair in H as [-> ->]; cbn [fst snd];
      (split; [| reflexivity]); try (left; reflexivity).
    right. apply WEXITSTATUS_range.
Qed.

Lemma launch_body_result fuel argv w r w' :
  launch_body fuel argv w = Some (r, w') ->
  (r = -1 \/ 0 <= r <= 255) /\ (child_pid w = -1 -> child_pid w' = -1).
Proof.
  unfold launch_body.
  pose proof (fr_child_pid (pipe_frame w)) as C1.
  destruct (runState pipe w) as [r1 w1]. cbn [snd] in C1.
  destruct (r1 =? -1).
  { intros H. apply some_pair in H as [-> ->]. cbn [fst snd].
    split; [left; reflexivity | congruence]. }
  pose proof (fr_child_pid (fcntl_getfl_frame PipeRd w1)) as C2.
  destruct (runState (fcntl_getfl PipeRd) w1) as [flags w2]. cbn [snd] in C2.
  pose proof (fr_child_pid
                (fcntl_setfl_frame PipeRd (Z.lor flags O_NONBLOCK) w2)) as C3.
  destruct (runState (fcntl_setfl PipeRd _) w2) as [r3 w3]. cbn [snd] in C3.
  pose proof (fr_child_pid (fork_frame (child_branch argv) w3)) as C4.
  destruct (runState (fork _) w3) as [pid w4]. cbn [snd] in C4.
  destruct (pid =? -1).
  { pose proof (fr_child_pid (close_frame PipeRd w4)) as C5.
    destruct (runState (close PipeRd) w4) as [r5 w5]. cbn [snd] in C5.
    pose proof (fr_child_pid (close_frame PipeWr w5)) as C6.
    destruct (runState (close PipeWr) w5) as [r6 w6]. cbn [snd] in C6.
    intros H. apply some_pair in H as [-> ->]. cbn [fst snd].
    split; [left; reflexivity | congruence]. }
  destruct (pid =? 0); [discriminate |].
  unfold parent. destruct (supervise fuel pid _) as [w5|]; [| discriminate].
  intros H. apply after_loop_result in H as [R C].
  split; [exact R | intros _; exact C].
Qed.

Lemma setup_signal_handlers_frame : keeps frame setup_signal_handlers.
Proof. unfold setup_signal_handlers. keeps_tac. Qed.

Lemma launchJvm_result fuel argv w r w' :
  launchJvm fuel argv w = Some (r, w') ->
  (r = -1 \/ 0 <= r <= 255) /\
  (child_pid w' = -1 \/ child_pid w' = child_pid w).
Proof.
  unfold launchJvm.
  pose proof (setup_signal_handlers_frame w) as C0.
  destruct (runState setup_signal_handlers w) as [r0 w0]. cbn [snd] in C0.
  destruct (r0 =? -1).
  - intros H. apply some_pair in H as [-> ->]. cbn [fst snd].
    split; [left; reflexivity | right; apply (fr_child_pid C0)].
  - intros H. apply launch_body_result in H as [R C].
    split; [exact R | left; apply C; reflexivity].
Qed.

(** ** Where a result other than -1 comes from *)

(** The end of the child with the status [st] is among the events
    ahead. *)
Definition dies_ahead (st : wstatus) (w : world) : Prop :=
  In (ChildDies st) (flat_map events (sched w)).

(** The zombie with the status [st] is there, or can still come. *)
Definition came_from (st : wstatus) (w : world) : Prop :=
  proc w = Some (Zombie st) \/ dies_ahead st w.

(** Steps that make no zombie. *)
Definition undying (w w' : world) : Prop :=
  forall st, proc w' = Some (Zombie st) -> proc w = Some (Zombie st).

Lemma undying_refl w : undying w w.
Proof. intros st H. exact H. Qed.

Lemma undying_trans w1 w2 w3 :
  undying w1 w2 -> undying w2 w3 -> undying w1 w3.
Proof. unfold undying. auto. Qed.

#[local] Hint Resolve undying_refl : keeps.

Ltac undying_goal :=
  intros; unfold undying; simpl;
  repeat match goal with
         | |- context [if ?b then _ else _] => destruct b eqn:?
         | |- context [match ?x with _ => _ end] => destruct x eqn:?
         end;
  simpl; intros; try discriminate; assumption.

Lemma kill_undying pid sig : keeps undying (kill pid sig).
Proof. unfold kill. keeps_with undying_trans undying_goal. Qed.

#[local] Hint Resolve kill_undying : keeps.

Lemma signal_handler_undying sig : keeps undying (signal_handler sig).
Proof. unfold signal_handler. keeps_with undying_trans undying_goal. Qed.

Lemma stopJvm_undying : keeps undying stopJvm.
Proof. unfold stopJvm. keeps_with undying_trans undying_goal. Qed.

(** A zombie comes from a [ChildDies] event and from nothing else. *)
Lemma occur_dies e w st :
  proc (snd (runState (occur e) w)) = Some (Zombie st) ->
  proc w = Some (Zombie st) \/ e = ChildDies st.
Proof.
  destruct e as [s | | bs | | st']; cbn [occur].
  - intros H. left. apply (signal_handler_undying (signum s) w). exact H.
  - rewrite run_bind. intros H. left. apply (stopJvm_undying w). exact H.
  - unfold upd. cbn [runState snd]. destruct (child_wr w); intros H; left;
      exact H.
  - intros H. left. exact H.
  - unfold upd. cbn [runState snd].
    destruct (proc w) as [[|st0]|] eqn:Ep; cbn [proc set_proc]; intros H;
      try (left; rewrite <- Ep; exact H).
    right. injection H as ->. reflexivity.
Qed.

Lemma occur_all_dies es :
  forall w st,
    proc (snd (runState (occur_all es) w)) = Some (Zombie st) ->
    proc w = Some (Zombie st) \/ In (ChildDies st) es.
Proof.
  induction es as [|e es IH]; intros w st; cbn [occur_all].
  - intros H. left. exact H.
  - rewrite run_bind. intros H.
    destruct (IH _ _ H) as [H1 | H1]; [| right; right; exact H1].
    apply occur_dies in H1 as [H2 | ->];
      [left; exact H2 | right; left; reflexivity].
Qed.

Lemma turn_dies w st :
  proc (snd (runState turn w)) = Some (Zombie st) -> came_from st w.
Proof.
  rewrite run_turn. unfold came_from, dies_ahead.
  destruct (sched w) as [|sl rest]; cbn [snd]; [intros H; left; exact H |].
  intros H. apply occur_all_dies in H as [H | H]; [left; exact H |].
  right. cbn [flat_map]. apply in_or_app. left. exact H.
Qed.

(** Steps that take slots from the front of the schedule and in which a
    zombie, if there is one afterwards, was there before or was ahead. *)
Definition mortal (w w' : world) : Prop :=
  (exists ss, sched w = ss ++ sched w') /\
  forall st, proc w' = Some (Zombie st) -> came_from st w.

Lemma mortal_refl w : mortal w w.
Proof. split; [exists []; reflexivity | intros st H; left; exact H]. Qed.

Lemma suffix_dies st w w' :
  (exists ss, sched w = ss ++ sched w') -> dies_ahead st w' ->
  dies_ahead st w.
Proof.
  unfold dies_ahead. intros [ss E] H. rewrite E, flat_map_app.
  apply in_or_app. right. exact H.
Qed.

Lemma mortal_back w w' st : mortal w w' -> came_from st w' -> came_from st w.
Proof.
  intros [S Z] [H | H]; [exact (Z st H) |].
  right. eapply suffix_dies; [exact S | exact H].
Qed.

Lemma mortal_trans w1 w2 w3 : mortal w1 w2 -> mortal w2 w3 -> mortal w1 w3.
Proof.
  intros H12 [[ss2 S2] Z2]. split.
  - destruct H12 as [[ss1 S1] _]. exists (ss1 ++ ss2).
    rewrite S1, S2, app_assoc. reflexivity.
  - intros st H. eapply mortal_back; [exact H12 | exact (Z2 st H)].
Qed.

#[local] Hint Resolve mortal_refl : keeps.

Ltac mortal_goal := intros; apply mortal_refl.

(** A system call: the zombies are those of its turn, as long as the
    kernel's answer makes none. *)
Lemma sys_mortal {A} (c : call) (k : outcome -> M A) :
  (forall o, keeps inner (k o)) ->
  (forall o, keeps undying (k o)) ->
  keeps mortal (sys c k).
Proof.
  intros Hi Hu w. split.
  - exists (firstn 1 (sched w)).
    rewrite (ac_sched (sys_after_call c k Hi w)).
    destruct (sched w); reflexivity.
  - intros st H. rewrite run_sys in H.
    apply (Hu (fate w)) in H. apply turn_dies in H. exact H.
Qed.

Ltac sys_mortal_tac :=
  apply sys_mortal;
  [intros [| ? | ?]; keeps_tac
  | intros [| ? | ?]; keeps_with undying_trans undying_goal].

Lemma sigaction_mortal sig h : keeps mortal (sigaction sig h).
Proof. unfold sigaction. sys_mortal_tac. Qed.

Lemma pipe_mortal : keeps mortal pipe.
Proof. unfold pipe. sys_mortal_tac. Qed.

Lemma fcntl_getfl_mortal f : keeps mortal (fcntl_getfl f).
Proof. unfold fcntl_getfl. sys_mortal_tac. Qed.

Lemma fcntl_setfl_mortal f flags : keeps mortal (fcntl_setfl f flags).
Proof. unfold fcntl_setfl. sys_mortal_tac. Qed.

Lemma fork_mortal in_child : keeps mortal (fork in_child).
Proof. unfold fork. sys_mortal_tac. Qed.

Lemma close_mortal f : keeps mortal (close f).
Proof. unfold close. sys_mortal_tac. Qed.

Lemma poll_mortal f ev timeout : keeps mortal (poll f ev timeout).
Proof. unfold poll. sys_mortal_tac. Qed.

Lemma read_mortal f count : keeps mortal (read f count).
Proof. unfold read. sys_mortal_tac. Qed.

Lemma write_mortal f buf : keeps mortal (write f buf).
Proof. unfold write. sys_mortal_tac. Qed.

Lemma waitpid_nohang_mortal pid : keeps mortal (waitpid_nohang pid).
Proof. unfold waitpid_nohang, collect. sys_mortal_tac. Qed.

#[local] Hint Resolve sigaction_mortal poll_mortal read_mortal write_mortal
  waitpid_nohang_mortal : keeps.

Lemma setup_signal_handlers_mortal : keeps mortal setup_signal_handlers.
Proof.
  unfold setup_signal_handlers. keeps_with mortal_trans mortal_goal.
Qed.

Lemma iteration_mortal pid : keeps mortal (iteration pid).
Proof.
  unfold iteration, forward, deliver. keeps_with mortal_trans mortal_goal.
Qed.

Lemma supervise_mortal fuel pid :
  forall w w', supervise fuel pid w = Some w' -> mortal w w'.
Proof.
  induction fuel as [|n IH]; intros w w' H; [discriminate |].
  rewrite supervise_S in H.
  pose proof (iteration_mortal pid w) as Hi.
  destruct (runState (iteration pid) w) as [[|] w1]; cbn [snd] in Hi.
  - injection H as <-. exact Hi.
  - eapply mortal_trans; [exact Hi | apply IH; exact H].
Qed.

Lemma turn_mortal : keeps mortal turn.
Proof.
  intros w. split; [| apply turn_dies].
  exists (firstn 1 (sched w)). rewrite turn_sched.
  destruct (sched w); reflexivity.
Qed.

(** The blocking [waitpid] answers with a pid only for a zombie, and
    then with the zombie's status. *)
Lemma block_until_exit_status n pid :
  forall w res status w',
    block_until_exit n pid w = Some ((res, status), w') ->
    res <> -1 ->
    exists st, came_from st w /\ status = wait_status st.
Proof.
  induction n as [|n IH]; intros w res status w' H Hres;
    rewrite block_until_exit_eq in H;
    pose proof (turn_mortal w) as Ht;
    unfold block_step in H;
    destruct (fst (runState turn w));
    try (apply some_pair in H as [H _]; cbn in H;
         injection H as -> _; contradiction);
    (destruct (pid =? Z.pos (kpid (snd (runState turn w))));
     [destruct (proc (snd (runState turn w))) as [[|st]|] eqn:Ep |]);
    try discriminate H;
    try (apply some_pair in H as [H _]; cbn in H;
         injection H as -> _; contradiction);
    try (apply some_pair in H as [H _]; cbn in H; injection H as _ ->;
         exists st; split; [exact (proj2 Ht st Ep) | reflexivity]);
    (destruct (IH _ _ _ _ H Hres) as (st & Hc & Hs);
     exists st; split; [eapply mortal_back; [exact Ht | exact Hc] | exact Hs]).
Qed.

Lemma reap_status pid w r w' :
  reap pid w = Some (r, w') ->
  r <> -1 ->
  exists st,
    came_from st w /\ WIFSIGNALED (wait_status st) = false /\
    r = WEXITSTATUS (wait_status st).
Proof.
  unfold reap, waitpid_block.
  destruct (block_until_exit _ pid _) as [[[res status] w1]|] eqn:Hb;
    [| discriminate].
  destruct (Z.eqb_spec res (-1)) as [E | E];
    [intros H Hr; apply some_pair in H as [-> _]; contradiction |].
  apply block_until_exit_status in Hb as (st & Hc & ->); [| exact E].
  destruct (WIFSIGNALED (wait_status st)) eqn:Es;
    intros H Hr; apply some_pair in H as [-> _]; [contradiction |].
  exists st. split; [exact Hc | split; [exact Es | reflexivity]].
Qed.

Lemma after_loop_status pid w r w' :
  after_loop pid w = Some (r, w') ->
  r <> -1 ->
  exists st,
    came_from st w /\ WIFSIGNALED (wait_status st) = false /\
    r = WEXITSTATUS (wait_status st).
Proof.
  unfold after_loop. pose proof (close_mortal PipeRd w) as Hc.
  destruct (negb _).
  - intros H Hr. apply some_pair in H as [-> _].
    destruct (shutdown_result pid (snd (runState (close PipeRd) w)))
      as [R _].
    contradiction.
  - intros H Hr. apply reap_status in H as (st & Hs & Hd); [| exact Hr].
    exists st. split; [eapply mortal_back; [exact Hc | exact Hs] | exact Hd].
Qed.

Lemma parent_status fuel pid w r w' :
  parent fuel pid w = Some (r, w') ->
  r <> -1 ->
  exists st,
    came_from st w /\ WIFSIGNALED (wait_status st) = false /\
    r = WEXITSTATUS (wait_status st).
Proof.
  unfold parent. pose proof (close_mortal PipeWr (set_child_pid pid w)) as Hc.
  destruct (supervise fuel pid _) as [w3|] eqn:Hl; [| discriminate].
  apply supervise_mortal in Hl.
  intros H Hr. apply after_loop_status in H as (st & Hs & Hd); [| exact Hr].
  exists st. split; [| exact Hd].
  eapply mortal_back; [exact Hc |]. eapply mortal_back; [exact Hl | exact Hs].
Qed.

(** The child [fork] creates runs. *)
Lemma fork_started in_child w :
  fst (runState (fork in_child) w) <> -1 ->
  proc (snd (runState (fork in_child) w)) = Some Running.
Proof.
  unfold fork. rewrite run_sys.
  destruct (fate w); [reflexivity | | reflexivity].
  intros H. exfalso. apply H. reflexivity.
Qed.

Lemma launch_body_status fuel argv w r w' :
  launch_body fuel argv w = Some (r, w') ->
  r <> -1 ->
  exists st,
    dies_ahead st w /\ WIFSIGNALED (wait_status st) = false /\
    r = WEXITSTATUS (wait_status st).
Proof.
  unfold launch_body.
  pose proof (pipe_mortal w) as M1.
  destruct (runState pipe w) as [r1 w1]. cbn [snd] in M1.
  destruct (r1 =? -1);
    [intros H Hr; apply some_pair in H as [-> _]; contradiction |].
  pose proof (fcntl_getfl_mortal PipeRd w1) as M2.
  destruct (runState (fcntl_getfl PipeRd) w1) as [flags w2]. cbn [snd] in M2.
  pose proof (fcntl_setfl_mortal PipeRd (Z.lor flags O_NONBLOCK) w2) as M3.
  destruct (runState (fcntl_setfl PipeRd _) w2) as [r3 w3]. cbn [snd] in M3.
  pose proof (fork_mortal (child_branch argv) w3) as M4.
  pose proof (fork_started (child_branch argv) w3) as F.
  destruct (runState (fork _) w3) as [pid w4]. cbn [fst snd] in M4, F.
  destruct (Z.eqb_spec pid (-1)) as [E | E].
  { destruct (runState (close PipeRd) w4) as [r5 w5].
    destruct (runState (close PipeWr) w5) as [r6 w6].
    intros H Hr. apply some_pair in H as [-> _]. contradiction. }
  destruct (pid =? 0); [discriminate |].
  intros H Hr. apply parent_status in H as (st & Hs & Hd); [| exact Hr].
  exists st. split; [| exact Hd].
  destruct Hs as [Hs | Hs]; [rewrite (F E) in Hs; discriminate Hs |].
  pose proof (mortal_trans M1 (mortal_trans M2 (mortal_trans M3 M4)))
    as [S _].
  eapply suffix_dies; [exact S | exact Hs].
Qed.

Lemma launchJvm_status fuel argv w r w' :
  launchJvm fuel argv w = Some (r, w') ->
  r <> -1 ->
  exists st,
    dies_ahead st w /\ WIFSIGNALED (wait_status st) = false /\
    r = WEXITSTATUS (wait_status st).
Proof.
  unfold launchJvm.
  pose proof (setup_signal_handlers_mortal w) as [S _].
  destruct (runState setup_signal_handlers w) as [r0 w0]. cbn [snd] in S.
  destruct (r0 =? -1);
    [intros H Hr; apply some_pair in H as [-> _]; contradiction |].
  intros H Hr. apply launch_body_status in H as (st & Hs & Hd); [| exact Hr].
  exists st. split; [eapply suffix_dies; [exact S | exact Hs] | exact Hd].
Qed.

(** X7.  The result of a launch is -1 or the exit status, between 0 and
    255, of a child that was seen to end: the status word of one of the
    [ChildDies] events of the run does not say "killed by a signal", and
    the result is its exit-status byte.  So the number of a signal (1 to
    126) that killed the child is never returned. *)
Theorem launch_result_range
        (fuel : nat) (jargs : list jelement) (w : world) (r : Z) (w' : world) :
  nativeLaunchJvm fuel jargs w = Some (r, w') ->
  r = -1 \/
  0 <= r <= 255 /\
  exists st,
    In (ChildDies st) (flat_map events (sched w)) /\
    WIFSIGNALED (wait_status st) = false /\
    r = WEXITSTATUS (wait_status st) /\
    forall s, 1 <= s <= 126 -> st <> Signaled s.
Proof.
  unfold nativeLaunchJvm.
  destruct (Z.of_nat (List.length jargs) <=? 0);
    [intros H; apply some_pair in H as [-> _]; left; reflexivity |].
  destruct (fill_args jargs []) as [args|];
    [| intros H; apply some_pair in H as [-> _]; left; reflexivity].
  intros H. destruct (Z.eq_dec r (-1)) as [E | E]; [left; exact E | right].
  apply launchJvm_status in H as (st & Hs & Hn & Hr); [| exact E].
  split; [rewrite Hr; apply WEXITSTATUS_range |].
  exists st. split; [exact Hs |]. split; [exact Hn |]. split; [exact Hr |].
  intros s Hp ->. rewrite (signaled_is_signaled Hp) in Hn. discriminate Hn.
Qed.

(** [sh -c "exit 7"]: the result is 7, from the event of the child's
    exit. *)
Lemma launch_result_range_witness :
  7 = -1 \/
  0 <= 7 <= 255 /\
  exists st,
    In (ChildDies st) (flat_map events (sched exit_seven)) /\
    WIFSIGNALED (wait_status st) = false /\
    7 = WEXITSTATUS (wait_status st) /\
    forall s, 1 <= s <= 126 -> st <> Signaled s.
Proof.
  eapply (@launch_result_range
            1 [JString (Some "/bin/sh"); JString (Some "-c");
               JString (Some "exit 7")]%string exit_seven).
  vm_compute. reflexivity.
Defined.

(** ** [stopJvm] and the handler once the launch is over *)

(** X8.  When [launchJvm], called with no child active, has returned,
    whatever the way, no child is active: [stopJvm] returns -1 and changes
    nothing, and the signal handler records its signal and sends none. *)
Theorem stop_after_launch
        (fuel : nat) (argv : list string) (w : world) (r : Z) (w' : world) :
  launchJvm fuel argv w = Some (r, w') ->
  child_pid w <= 0 ->
  runState stopJvm w' = (-1, w') /\
  forall s,
    runState (signal_handler (signum s)) w' =
    (tt, set_signal_received (signum s) w').
Proof.
  intros H Hc. apply launchJvm_result in H as [_ C].
  assert (Hle : (child_pid w' >? 0) = false)
    by (destruct (Z.gtb_spec (child_pid w') 0); [lia | reflexivity]).
  split.
  - unfold stopJvm. rewrite run_bind. cbn [rd runState fst snd].
    rewrite Hle. reflexivity.
  - intros s. unfold signal_handler. rewrite !run_bind.
    cbn [upd rd runState fst snd child_pid set_signal_received].
    rewrite Hle. reflexivity.
Qed.

Lemma stop_after_launch_witness :
  exists w',
    launchJvm 1 ["/bin/echo"; "hello"]%string echo_hello = Some (0, w') /\
    runState stopJvm w' = (-1, w').
Proof.
  eexists. split; [vm_compute; reflexivity |].
  refine (proj1 (@stop_after_launch
                   1 ["/bin/echo"; "hello"]%string echo_hello 0 _ _ _));
    [vm_compute; reflexivity | vm_compute; discriminate].
Defined.

(** ** The exit status that is reported *)

Lemma run_ret {A} (a : A) (w : world) : runState (ret a) w = (a, w).
Proof. reflexivity. Qed.

(** What the code after the loop reports for a child that has ended. *)
Definition reported (st : wstatus) : Z :=
  match st with
  | Exited c => Z.land c 255
  | Signaled _ => -1
  end.

(** A signal number a process can be killed by, as far as the status
    word can tell it from an exit. *)
Definition plausible (st : wstatus) : Prop :=
  match st with
  | Exited _ => True
  | Signaled s => 1 <= s <= 126
  end.

(** X9.  When the launch is not cancelled and the child is still in the
    process table, ended, as the blocking [waitpid] looks for it, the
    result is the low byte of its exit code, or -1 if a signal killed it;
    the child is reaped and [child_pid] is -1. *)
Theorem exit_status_reported (pid : Z) (w : world) (st : wstatus) :
  let w1 := snd (runState (close PipeRd) w) in
  let w2 := turned (Waitpid pid 0) w1 in
  pid = Z.pos (kpid w) ->
  signal_received w1 = 0 ->
  failing (fate w1) = false ->
  proc w2 = Some (Zombie st) ->
  plausible st ->
  after_loop pid w =
  Some (reported st, set_child_pid (-1) (set_proc None w2)).
Proof.
  cbv zeta. intros Hpid Hs Hf Hz Hst.
  unfold after_loop. rewrite Hs. cbn [Z.eqb negb].
  set (w1 := snd (runState (close PipeRd) w)) in *.
  assert (Hk : kpid (turned (Waitpid pid 0) w1) = kpid w).
  { rewrite (fr_kpid (md_frame (turned_made (Waitpid pid 0) w1))).
    apply (fr_kpid (close_frame PipeRd w)). }
  unfold reap, waitpid_block. rewrite block_until_exit_eq.
  change (snd (runState (log (Waitpid pid 0)) w1))
    with (logged (Waitpid pid 0) w1).
  fold (turned (Waitpid pid 0) w1). rewrite turn_fate.
  change (fate (logged (Waitpid pid 0) w1)) with (fate w1).
  unfold block_step. rewrite Hk, <- Hpid, Z.eqb_refl, Hz.
  destruct (fate w1) as [| e | k]; try discriminate Hf;
    cbn [collect]; rewrite run_bind; cbn [upd runState fst snd];
    rewrite run_ret; cbv beta iota;
    (replace (pid =? -1) with false by (subst pid; reflexivity));
    (destruct st as [c | s];
     [rewrite exited_not_signaled, exited_status
     | rewrite (signaled_is_signaled Hst)]);
    reflexivity.
Qed.

(** The child has exited with status 263 and waits to be reaped. *)
Definition ended_263 : world :=
  {| child_pid := 1234; signal_received := 0; errno := 0; kpid := 1234;
     proc := Some (Zombie (Exited 263)); pipe_data := []; child_wr := false;
     rd_open := true; wr_open := false; out := []; child_calls := [];
     kills := []; calls := []; sched := [] |}.

Lemma exit_status_reported_witness :
  after_loop 1234 ended_263 =
  Some (7, set_child_pid (-1)
             (set_proc None
                (turned (Waitpid 1234 0)
                   (snd (runState (close PipeRd) ended_263))))).
Proof.
  apply (@exit_status_reported 1234 ended_263 (Exited 263));
    [reflexivity | reflexivity | reflexivity | reflexivity | exact I].
Defined.

(** ** The loop ends when the pipe has no writer left *)

(** Steps that give the pipe no new writer. *)
Definition no_new_writer (w w' : world) : Prop :=
  writers w = false -> writers w' = false.

Lemma no_new_writer_trans w1 w2 w3 :
  no_new_writer w1 w2 -> no_new_writer w2 w3 -> no_new_writer w1 w3.
Proof. unfold no_new_writer. auto. Qed.

Ltac no_new_writer_goal :=
  intros; unfold no_new_writer, writers; simpl;
  repeat match goal with
         | |- context [if ?b then _ else _] => destruct b eqn:?
         | |- context [match ?x with _ => _ end] => destruct x eqn:?
         end;
  simpl; auto; try congruence;
  rewrite ?Bool.orb_false_iff in *; intuition congruence.

Lemma kill_no_new_writer pid sig : keeps no_new_writer (kill pid sig).
Proof. unfold kill. keeps_with no_new_writer_trans no_new_writer_goal. Qed.

#[local] Hint Resolve kill_no_new_writer : keeps.

Lemma occur_no_new_writer e : keeps no_new_writer (occur e).
Proof.
  destruct e; unfold occur, signal_handler, stopJvm;
    keeps_with no_new_writer_trans no_new_writer_goal.
Qed.

#[local] Hint Resolve occur_no_new_writer : keeps.

Lemma occur_all_no_new_writer es : keeps no_new_writer (occur_all es).
Proof.
  induction es as [|e es IH]; cbn [occur_all];
    keeps_with no_new_writer_trans no_new_writer_goal.
Qed.

#[local] Hint Resolve occur_all_no_new_writer : keeps.

Lemma turn_no_new_writer : keeps no_new_writer turn.
Proof. unfold turn. keeps_with no_new_writer_trans no_new_writer_goal. Qed.

Lemma turned_no_writer c w : writers w = false -> writers (turned c w) = false.
Proof. intros H. apply (turn_no_new_writer (logged c w)). exact H. Qed.

(** X10.  Once nobody holds a write end of the pipe, a pass whose [poll]
    does not fail is the last: with or without data to forward, with or
    without the flag, it ends with [break]. *)
Theorem hangup_ends_loop (pid : Z) (w : world) :
  writers w = false ->
  failing (fate w) = false ->
  fst (runState (iteration pid) w) = Break /\
  forall fuel,
    supervise (S fuel) pid w = Some (snd (runState (iteration pid) w)).
Proof.
  intros Hw Hf.
  assert (Hb : fst (runState (iteration pid) w) = Break).
  { rewrite iteration_eq. cbv zeta.
    pose proof (poll_run PipeRd POLLIN 100 w) as Hp. cbv zeta in Hp.
    rewrite (turned_no_writer (Poll PipeRd POLLIN 100) w Hw) in Hp.
    assert (Hp' : exists revents,
               runState (poll PipeRd POLLIN 100) w =
               ((1, revents), turned (Poll PipeRd POLLIN 100) w) /\
               negb (Z.land revents (Z.lor POLLERR POLLHUP) =? 0) = true).
    { destruct (fate w); try discriminate Hf;
        destruct (nonempty _); eexists; (split; [exact Hp | reflexivity]). }
    destruct Hp' as (revents & -> & Hh). cbn [fst snd].
    destruct (negb (signal_received _ =? 0)); [reflexivity |].
    cbn [Z.eqb]. rewrite run_bind.
    destruct (fst (runState (forward revents) _)); [reflexivity |].
    rewrite Hh. reflexivity. }
  split; [exact Hb |].
  intros fuel. rewrite supervise_S.
  destruct (runState (iteration pid) w) as [c w1]. cbn [fst snd] in *.
  subst c. reflexivity.
Qed.

(** The child of [echo_hello] has printed, closed and exited; the
    supervisor enters the loop. *)
Definition hung_up : world :=
  {| child_pid := 1234; signal_received := 0; errno := 0; kpid := 1234;
     proc := Some (Zombie (Exited 0)); pipe_data := hello; child_wr := false;
     rd_open := true; wr_open := false; out := []; child_calls := [];
     kills := []; calls := []; sched := [] |}.

Lemma hangup_ends_loop_witness :
  fst (runState (iteration 1234) hung_up) = Break /\
  forall fuel,
    supervise (S fuel) 1234 hung_up =
    Some (snd (runState (iteration 1234) hung_up)).
Proof.
  apply (hangup_ends_loop 1234 hung_up); reflexivity.
Defined.

(** ** The loop goes on while the child runs in silence *)

(** A slot in which nothing happens and the call goes as usual. *)
Definition calm (s : slot) : Prop := events s = [] /\ result s = Normal.

(** The child runs, holds its end of the pipe, has nothing in the pipe;
    no cancellation is recorded; the schedule ahead is calm. *)
Record idle (pid : Z) (w : world) : Prop := {
  id_sched : Forall calm (sched w);
  id_proc : proc w = Some Running;
  id_pid : pid = Z.pos (kpid w);
  id_writers : writers w = true;
  id_pipe : pipe_data w = [];
  id_flag : signal_received w = 0
}.

Lemma calm_turned c pid w :
  idle pid w -> fate w = Normal /\ idle pid (turned c w).
Proof.
  intros [Hs Hp Hk Hw Hd Hf]. unfold fate, turned. rewrite run_turn.
  cbn [sched logged set_calls].
  destruct (sched w) as [|s rest] eqn:E.
  - split; [reflexivity |]. cbn [snd].
    split; cbn; try assumption; try exact Hw. rewrite E. exact Hs.
  - inversion Hs as [|? ? [He Hr] Hrest]; subst.
    split; [exact Hr |]. rewrite He. cbn [occur_all snd].
    rewrite run_ret. cbn [snd].
    split; cbn; try assumption; try exact Hw; reflexivity.
Qed.

Lemma idle_pass pid w :
  idle pid w ->
  exists w', runState (iteration pid) w = (Continue, w') /\ idle pid w'.
Proof.
  intros Hi.
  destruct (calm_turned (Poll PipeRd POLLIN 100) Hi) as [F1 Hi1].
  set (w1 := turned (Poll PipeRd POLLIN 100) w) in *.
  destruct (calm_turned (Waitpid pid WNOHANG) Hi1) as [F2 Hi2].
  exists (turned (Waitpid pid WNOHANG) w1). split; [| exact Hi2].
  rewrite iteration_eq. cbv zeta.
  pose proof (poll_run PipeRd POLLIN 100 w) as Hp. cbv zeta in Hp.
  fold w1 in Hp. rewrite F1, (id_pipe Hi1), (id_writers Hi1) in Hp.
  rewrite Hp. cbn [fst snd nonempty Z.lor Z.eqb].
  rewrite (id_flag Hi1). cbn [Z.eqb negb].
  rewrite run_bind.
  pose proof (waitpid_nohang_run pid w1) as Hwp. cbv zeta in Hwp.
  rewrite F2, (id_proc Hi2), <- (id_pid Hi2), Z.eqb_refl in Hwp.
  rewrite Hwp. cbn [fst snd].
  rewrite (id_pid Hi). reflexivity.
Qed.

(** X11.  As long as the child runs, keeps the pipe open and prints
    nothing, and nothing cancels the launch, every pass of the loop ends
    with "go round again": the loop, and with it the launch, does not
    return. *)
Theorem silent_child_blocks (pid : Z) (w : world) :
  idle pid w -> forall fuel, supervise fuel pid w = None.
Proof.
  intros Hi fuel. revert w Hi.
  induction fuel as [|n IH]; intros w Hi; [reflexivity |].
  rewrite supervise_S.
  destruct (idle_pass Hi) as (w' & -> & Hi'). apply IH, Hi'.
Qed.

(** The child sleeps; nothing else happens, ever. *)
Definition sleeping : world :=
  {| child_pid := 1234; signal_received := 0; errno := 0; kpid := 1234;
     proc := Some Running; pipe_data := []; child_wr := true;
     rd_open := true; wr_open := false; out := []; child_calls := [];
     kills := []; calls := []; sched := [eventless Normal] |}.

Lemma silent_child_blocks_witness : supervise 100 1234 sleeping = None.
Proof.
  apply (@silent_child_blocks 1234 sleeping).
  split; try reflexivity.
  repeat constructor.
Defined.

(** ** A [read] that fails *)

Lemma turned_out c w : out (turned c w) = out w.
Proof. apply (turn_out (logged c w)). Qed.

(** X12.  Take a pass in which [poll] reports the pipe readable with the
    flag not set, and the [read] fails with error [e].  Nothing is
    written.  EAGAIN is taken for a false alarm: the pass goes on to the
    hang-up test, and round again unless that test ends the loop.  Any
    other error ends the loop. *)
Theorem read_failure_outcome (pid : Z) (w : world) (e : Z) :
  let p := runState (poll PipeRd POLLIN 100) w in
  let revents := snd (fst p) in
  let w' := snd (runState (read PipeRd buffer_size) (snd p)) in
  signal_received (snd p) = 0 ->
  fst (fst p) <> -1 ->
  fst (fst p) <> 0 ->
  Z.land revents POLLIN <> 0 ->
  fate (snd p) = Fail e ->
  runState (iteration pid) w =
    (if e =? EAGAIN
     then if negb (Z.land revents (Z.lor POLLERR POLLHUP) =? 0)
          then Break else Continue
     else Break,
     w') /\
  out w' = out w /\
  calls w' = calls w ++ [Poll PipeRd POLLIN 100; Read PipeRd buffer_size].
Proof.
  cbv zeta. intros Hs Hr1 Hr0 Hin F.
  pose proof (read_run PipeRd buffer_size
                (snd (runState (poll PipeRd POLLIN 100) w))) as Hrd.
  cbv zeta in Hrd. rewrite F in Hrd.
  split; [| split].
  - rewrite iteration_eq. cbv zeta. rewrite Hs. cbn [Z.eqb negb].
    destruct (Z.eqb_spec (fst (fst (runState (poll PipeRd POLLIN 100) w))) (-1));
      [contradiction |].
    destruct (Z.eqb_spec (fst (fst (runState (poll PipeRd POLLIN 100) w))) 0);
      [contradiction |].
    rewrite run_bind. unfold forward.
    destruct (Z.eqb_spec
                (Z.land (snd (fst (runState (poll PipeRd POLLIN 100) w)))
                        POLLIN) 0);
      [contradiction |]. cbn [negb].
    rewrite run_bind, Hrd. cbn [fst snd Z.gtb Z.compare Z.eqb].
    rewrite Pos.eqb_refl, run_bind.
    cbn [rd runState fst snd errno set_errno].
    unfold EWOULDBLOCK. fold EAGAIN.
    destruct (e =? EAGAIN); cbn [negb andb]; rewrite ?run_ret; cbn [fst snd];
      [| reflexivity].
    destruct (negb _); reflexivity.
  - rewrite Hrd. cbn [snd out set_errno]. rewrite turned_out.
    apply (poll_out PipeRd POLLIN 100 w).
  - rewrite (ac_calls (read_after PipeRd buffer_size _)).
    rewrite (ac_calls (poll_after PipeRd POLLIN 100 w)), <- app_assoc.
    reflexivity.
Qed.

(** The pipe is readable, and the [read] is refused with EIO. *)
Definition pipe_trouble : world :=
  {| child_pid := 1234; signal_received := 0; errno := 0; kpid := 1234;
     proc := Some Running; pipe_data := hello;
     child_wr := true; rd_open := true; wr_open := false; out := [];
     child_calls := []; kills := []; calls := [];
     sched := [eventless Normal; eventless (Fail EIO)] |}.

Lemma read_failure_outcome_witness :
  runState (iteration 1234) pipe_trouble =
    (Break,
     snd (runState (read PipeRd buffer_size)
            (snd (runState (poll PipeRd POLLIN 100) pipe_trouble)))) /\
  out (snd (runState (read PipeRd buffer_size)
              (snd (runState (poll PipeRd POLLIN 100) pipe_trouble))))
  = out pipe_trouble /\
  calls (snd (runState (read PipeRd buffer_size)
                (snd (runState (poll PipeRd POLLIN 100) pipe_trouble))))
  = calls pipe_trouble ++ [Poll PipeRd POLLIN 100; Read PipeRd buffer_size].
Proof.
  apply (@read_failure_outcome 1234 pipe_trouble EIO);
    [reflexivity | discriminate | discriminate | discriminate | reflexivity].
Defined.

(** ** Each end of the pipe is closed once *)

Definition fd_eqb (f g : fd) : bool :=
  match f, g with
  | PipeRd, PipeRd | PipeWr, PipeWr | Stdout, Stdout | Stderr, Stderr => true
  | _, _ => false
  end.

(** How often [close(f)] occurs among the calls [cs]. *)
Definition closes (f : fd) (cs : list call) : nat :=
  List.length (filter (fun c => match c with
                                | Close g => fd_eqb f g
                                | _ => false
                                end) cs).

Lemma closes_app f cs1 cs2 :
  closes f (cs1 ++ cs2) = (closes f cs1 + closes f cs2)%nat.
Proof. unfold closes. rewrite filter_app, length_app. reflexivity. Qed.

(** Steps that open and close nothing. *)
Record fd_quiet (w w' : world) : Prop := {
  fq_fds : same_fds w w';
  fq_closes : forall f, closes f (calls w') = closes f (calls w)
}.

Lemma fd_quiet_refl w : fd_quiet w w.
Proof. split; [apply same_fds_refl | reflexivity]. Qed.

Lemma fd_quiet_trans w1 w2 w3 :
  fd_quiet w1 w2 -> fd_quiet w2 w3 -> fd_quiet w1 w3.
Proof.
  intros [a b] [a' b']. split.
  - eapply same_fds_trans; eassumption.
  - intros f. rewrite b', b. reflexivity.
Qed.

#[local] Hint Resolve fd_quiet_refl : keeps.

Ltac fd_quiet_goal :=
  intros; split; [split; simpl; auto | intro; simpl; reflexivity].

Lemma sys_fd_quiet {A} (c : call) (k : outcome -> M A) :
  (forall f, closes f [c] = 0%nat) ->
  (forall o, keeps inner (k o)) ->
  (forall o, keeps same_fds (k o)) ->
  keeps fd_quiet (sys c k).
Proof.
  intros Hc Hi Hf w. split.
  - apply sys_keeps;
      [exact same_fds_trans | intro; split; reflexivity | apply turn_fds
      | exact Hf].
  - intros f. rewrite (ac_calls (sys_after_call c k Hi w)), closes_app, Hc.
    apply Nat.add_0_r.
Qed.

Ltac sys_fd_quiet_tac :=
  apply sys_fd_quiet;
  [intros [| | |]; reflexivity
  | intros [| ? | ?]; keeps_tac
  | intros [| ? | ?]; keeps_tac].

Lemma poll_fd_quiet f ev timeout : keeps fd_quiet (poll f ev timeout).
Proof. unfold poll. sys_fd_quiet_tac. Qed.

Lemma read_fd_quiet f count : keeps fd_quiet (read f count).
Proof. unfold read. sys_fd_quiet_tac. Qed.

Lemma write_fd_quiet f buf : keeps fd_quiet (write f buf).
Proof. unfold write. sys_fd_quiet_tac. Qed.

Lemma usleep_fd_quiet usec : keeps fd_quiet (usleep usec).
Proof. unfold usleep. sys_fd_quiet_tac. Qed.

Lemma sys_kill_fd_quiet pid sig : keeps fd_quiet (sys_kill pid sig).
Proof. unfold sys_kill. sys_fd_quiet_tac. Qed.

Lemma waitpid_nohang_fd_quiet pid : keeps fd_quiet (waitpid_nohang pid).
Proof. unfold waitpid_nohang, collect. sys_fd_quiet_tac. Qed.

Lemma fork_fd_quiet in_child : keeps fd_quiet (fork in_child).
Proof. unfold fork. sys_fd_quiet_tac. Qed.

Lemma fcntl_getfl_fd_quiet f : keeps fd_quiet (fcntl_getfl f).
Proof. unfold fcntl_getfl. sys_fd_quiet_tac. Qed.

Lemma fcntl_setfl_fd_quiet f flags : keeps fd_quiet (fcntl_setfl f flags).
Proof. unfold fcntl_setfl. sys_fd_quiet_tac. Qed.

#[local] Hint Resolve poll_fd_quiet read_fd_quiet write_fd_quiet
  usleep_fd_quiet sys_kill_fd_quiet waitpid_nohang_fd_quiet : keeps.

Lemma iteration_fd_quiet pid : keeps fd_quiet (iteration pid).
Proof.
  unfold iteration, forward, deliver.
  keeps_with fd_quiet_trans fd_quiet_goal.
Qed.

Lemma supervise_fd_quiet fuel pid :
  forall w w', supervise fuel pid w = Some w' -> fd_quiet w w'.
Proof.
  induction fuel as [|n IH]; intros w w' H; [discriminate |].
  rewrite supervise_S in H.
  pose proof (iteration_fd_quiet pid w) as Hi.
  destruct (runState (iteration pid) w) as [[|] w1]; cbn [snd] in Hi.
  - injection H as <-. exact Hi.
  - eapply fd_quiet_trans; [exact Hi | apply IH; exact H].
Qed.

Lemma wait_killed_fd_quiet pid waited w :
  fd_quiet w (snd (wait_killed pid waited w)).
Proof.
  funelim (wait_killed pid waited w); [| apply fd_quiet_refl].
  pose proof (waitpid_nohang_fd_quiet pid w) as Hw.
  destruct (fst (fst (runState (waitpid_nohang pid) w)) =? pid); [exact Hw |].
  destruct (fst (fst (runState (waitpid_nohang pid) w)) =? -1); [exact Hw |].
  eapply fd_quiet_trans; [exact Hw |].
  eapply fd_quiet_trans; [apply usleep_fd_quiet | exact H].
Qed.

Lemma shutdown_fd_quiet pid : keeps fd_quiet (shutdown pid).
Proof.
  intros w. unfold shutdown. rewrite !run_bind.
  cbn [upd runState fst snd].
  eapply fd_quiet_trans; [apply sys_kill_fd_quiet |].
  eapply fd_quiet_trans; [apply wait_killed_fd_quiet |].
  fd_quiet_goal.
Qed.

Lemma turn_fd_quiet : keeps fd_quiet turn.
Proof.
  intros w. split; [apply turn_fds |].
  intros f. rewrite (turn_calls w). reflexivity.
Qed.

Lemma block_until_exit_fd_quiet n pid :
  forall w r w', block_until_exit n pid w = Some (r, w') -> fd_quiet w w'.
Proof.
  induction n as [|n IH]; intros w r w' H; rewrite block_until_exit_eq in H;
    pose proof (turn_fd_quiet w) as Ht;
    unfold block_step in H;
    destruct (fst (runState turn w));
    try (apply some_pair in H as [_ ->];
         eapply fd_quiet_trans; [exact Ht | fd_quiet_goal]);
    (destruct (pid =? Z.pos (kpid (snd (runState turn w))));
     [destruct (proc (snd (runState turn w))) as [[|st]|] |]);
    try discriminate H;
    try (apply some_pair in H as [_ ->];
         eapply fd_quiet_trans; [exact Ht | fd_quiet_goal]);
    (eapply fd_quiet_trans; [exact Ht | eapply IH; exact H]).
Qed.

Lemma reap_fd_quiet pid w r w' : reap pid w = Some (r, w') -> fd_quiet w w'.
Proof.
  unfold reap, waitpid_block.
  destruct (block_until_exit _ pid _) as [[[res status] w1]|] eqn:Hb;
    [| discriminate].
  apply block_until_exit_fd_quiet in Hb.
  assert (Hq : fd_quiet w w1).
  { eapply fd_quiet_trans; [| exact Hb]. split; [split; reflexivity |].
    intros f.
    change (closes f (calls w ++ [Waitpid pid 0]) = closes f (calls w)).
    rewrite closes_app. apply Nat.add_0_r. }
  destruct (res =? -1); [| destruct (WIFSIGNALED status)];
    intros H; apply some_pair in H as [_ ->]; cbn [snd];
    (eapply fd_quiet_trans; [exact Hq | fd_quiet_goal]).
Qed.

Lemma made_closes cs w w' f :
  made cs w w' -> closes f cs = 0%nat ->
  closes f (calls w') = closes f (calls w).
Proof.
  intros M H. rewrite (md_calls M), closes_app, H. apply Nat.add_0_r.
Qed.

Lemma close_effect f w :
  let w' := snd (runState (close f) w) in
  rd_open w' = (if fd_eqb PipeRd f then false else rd_open w) /\
  wr_open w' = (if fd_eqb PipeWr f then false else wr_open w) /\
  forall g,
    closes g (calls w') =
    ((if fd_eqb g f then 1 else 0) + closes g (calls w))%nat.
Proof.
  cbv zeta. destruct (close_made f w) as (M & R & W). cbv zeta in M, R, W.
  split; [rewrite R; destruct f; reflexivity |].
  split; [rewrite W; destruct f; reflexivity |].
  intros g. rewrite (md_calls M), closes_app, Nat.add_comm. f_equal.
  unfold closes. cbn [filter]. destruct (fd_eqb g f); reflexivity.
Qed.

Lemma after_loop_fds pid w r w' :
  after_loop pid w = Some (r, w') ->
  rd_open w' = false /\ wr_open w' = wr_open w /\
  closes PipeRd (calls w') = S (closes PipeRd (calls w)) /\
  closes PipeWr (calls w') = closes PipeWr (calls w).
Proof.
  unfold after_loop. intros H.
  destruct (close_effect PipeRd w) as (R & W & C). cbv zeta in R, W, C.
  cbn [fd_eqb] in R, W.
  assert (Hq : fd_quiet (snd (runState (close PipeRd) w)) w').
  { destruct (negb _).
    - apply some_pair in H as [_ ->]. apply shutdown_fd_quiet.
    - eapply reap_fd_quiet; exact H. }
  destruct Hq as [[r1 r2] c]. rewrite r1, r2, !c, !C.
  repeat split; assumption.
Qed.

Lemma parent_fds fuel pid w r w' :
  parent fuel pid w = Some (r, w') ->
  rd_open w' = false /\ wr_open w' = false /\
  closes PipeRd (calls w') = S (closes PipeRd (calls w)) /\
  closes PipeWr (calls w') = S (closes PipeWr (calls w)).
Proof.
  unfold parent. intros H.
  destruct (close_effect PipeWr (set_child_pid pid w)) as (R & W & C).
  cbv zeta in R, W, C. cbn [fd_eqb] in R, W.
  destruct (supervise fuel pid _) as [w3|] eqn:Hl; [| discriminate].
  apply supervise_fd_quiet in Hl. destruct Hl as [[r1 r2] c].
  apply after_loop_fds in H as (R' & W' & C1 & C2).
  rewrite R', W', C1, C2, r2, !c, !C, W.
  repeat split.
Qed.

Lemma launch_body_fds fuel argv w r w' :
  launch_body fuel argv w = Some (r, w') ->
  if failing (fate w)
  then same_fds w w' /\ forall f, closes f (calls w') = closes f (calls w)
  else rd_open w' = false /\ wr_open w' = false /\
       closes PipeRd (calls w') = S (closes PipeRd (calls w)) /\
       closes PipeWr (calls w') = S (closes PipeWr (calls w)).
Proof.
  unfold launch_body.
  destruct (pipe_made w) as (R1 & M1 & D1).
  destruct (runState pipe w) as [r1 w1]. cbn [fst snd] in *.
  destruct (failing (fate w)); subst r1.
  { rewrite Z.eqb_refl. intros H. apply some_pair in H as [_ ->].
    split; [apply D1; reflexivity |].
    intros f. apply (made_closes f M1). reflexivity. }
  cbn [Z.eqb].
  pose proof (fcntl_getfl_fd_quiet PipeRd w1) as Q2.
  destruct (runState (fcntl_getfl PipeRd) w1) as [flags w2]. cbn [snd] in Q2.
  pose proof (fcntl_setfl_fd_quiet PipeRd (Z.lor flags O_NONBLOCK) w2) as Q3.
  destruct (runState (fcntl_setfl PipeRd _) w2) as [r3 w3]. cbn [snd] in Q3.
  pose proof (fork_fd_quiet (child_branch argv) w3) as Q4.
  destruct (runState (fork _) w3) as [pid w4]. cbn [snd] in Q4.
  pose proof (fd_quiet_trans Q2 (fd_quiet_trans Q3 Q4)) as [_ Q].
  assert (C1 : forall f, closes f (calls w4) = closes f (calls w)).
  { intros f. rewrite Q. apply (made_closes f M1). reflexivity. }
  destruct (pid =? -1).
  { destruct (close_effect PipeRd w4) as (R5 & W5 & C5).
    destruct (runState (close PipeRd) w4) as [r5 w5]. cbn [snd] in *.
    destruct (close_effect PipeWr w5) as (R6 & W6 & C6).
    destruct (runState (close PipeWr) w5) as [r6 w6]. cbn [snd] in *.
    intros H. apply some_pair in H as [_ ->]. cbn [snd].
    cbn [fd_eqb] in *. rewrite R6, R5, W6, !C6, !C5, !C1.
    repeat split. }
  destruct (pid =? 0); [discriminate |].
  intros H. apply parent_fds in H as (R & W & Ca & Cb).
  rewrite R, W, Ca, Cb, !C1. repeat split.
Qed.

(** X13.  On every return of [launchJvm] the supervisor holds neither end
    of the pipe, and it has closed each end exactly once: never twice,
    never not at all.  When no pipe was created (a [sigaction] or the
    [pipe] call failed) nothing was closed and no descriptor changed. *)
Theorem pipe_ends_closed_once
        (fuel : nat) (argv : list string) (w : world) (r : Z) (w' : world) :
  launchJvm fuel argv w = Some (r, w') ->
  if failing (nth_fate 0 w) || failing (nth_fate 1 w)
     || failing (nth_fate 2 w) || failing (nth_fate 3 w)
  then rd_open w' = rd_open w /\ wr_open w' = wr_open w /\
       forall f, closes f (calls w') = closes f (calls w)
  else rd_open w' = false /\ wr_open w' = false /\
       closes PipeRd (calls w') = S (closes PipeRd (calls w)) /\
       closes PipeWr (calls w') = S (closes PipeWr (calls w)).
Proof.
  intros H.
  destruct (failing (nth_fate 0 w) || failing (nth_fate 1 w)
            || failing (nth_fate 2 w)) eqn:F.
  - cbn [orb]. destruct (setup_fails w F) as (R & M & [r1 r2]).
    unfold launchJvm in H.
    destruct (runState setup_signal_handlers w) as [r0 w0].
    cbn [fst snd] in *. subst r0. rewrite Z.eqb_refl in H.
    apply some_pair in H as [_ ->].
    split; [exact r1 |]. split; [exact r2 |].
    intros f. apply (made_closes f M).
    unfold attempts.
    destruct (failing (nth_fate 0 w)); [reflexivity |].
    destruct (failing (nth_fate 1 w)); reflexivity.
  - cbn [orb].
    apply Bool.orb_false_iff in F as [F F2].
    apply Bool.orb_false_iff in F as [F0 F1].
    destruct (setup_succeeds w F0 F1 F2) as (R & M & [r1 r2]).
    unfold launchJvm in H.
    destruct (runState setup_signal_handlers w) as [r0 w0].
    cbn [fst snd] in *. subst r0. cbn [Z.eqb] in H.
    apply launch_body_fds in H.
    rewrite fate_nth in H.
    change (nth_fate 0 (set_child_pid (-1) (set_signal_received 0 w0)))
      with (nth_fate 0 w0) in H.
    rewrite (nth_fate_made 0 M) in H. cbn [List.length Nat.add] in H.
    assert (C0 : forall f, closes f (calls w0) = closes f (calls w))
      by (intros f; apply (made_closes f M); reflexivity).
    cbn [calls set_child_pid set_signal_received rd_open wr_open] in H.
    destruct (failing (nth_fate 3 w)).
    + destruct H as [[a b] c]. cbn in a, b.
      split; [congruence |]. split; [congruence |].
      intros f. rewrite c. apply C0.
    + rewrite !C0 in H. exact H.
Qed.

Lemma pipe_ends_closed_once_witness :
  exists w',
    launchJvm 1 ["/bin/echo"; "hello"]%string echo_hello = Some (0, w') /\
    rd_open w' = false /\ wr_open w' = false /\
    closes PipeRd (calls w') = S (closes PipeRd (calls echo_hello)) /\
    closes PipeWr (calls w') = S (closes PipeWr (calls echo_hello)).
Proof.
  eexists. split; [vm_compute; reflexivity |].
  refine (@pipe_ends_closed_once
            1 ["/bin/echo"; "hello"]%string echo_hello 0 _ _).
  vm_compute. reflexivity.
Defined.

(** ** Between the pipe and [write], no byte is lost, repeated or moved *)

(** The bytes the calls [cs] hand to [write], in order. *)
Definition handed (cs : list call) : list byte :=
  flat_map (fun c => match c with
                     | Write _ buf => buf
                     | _ => []
                     end) cs.

Lemma handed_app cs1 cs2 : handed (cs1 ++ cs2) = handed cs1 ++ handed cs2.
Proof. apply flat_map_app. Qed.

(** What the events [es] put into the pipe, given whether the child
    side's write end is open before them, and whether it is open after
    them. *)
Fixpoint arriving (open : bool) (es : list event) : list byte :=
  match es with
  | [] => []
  | ChildWrites bs :: rest => (if open then bs else []) ++ arriving open rest
  | ChildCloses :: rest => arriving false rest
  | _ :: rest => arriving open rest
  end.

Fixpoint still_open (open : bool) (es : list event) : bool :=
  match es with
  | [] => open
  | ChildCloses :: rest => still_open false rest
  | _ :: rest => still_open open rest
  end.

Lemma arriving_app open es1 es2 :
  arriving open (es1 ++ es2) =
  arriving open es1 ++ arriving (still_open open es1) es2.
Proof.
  revert open. induction es1 as [|e es1 IH]; intros open; [reflexivity |].
  destruct e; cbn [app arriving still_open]; rewrite IH;
    rewrite ?app_assoc; reflexivity.
Qed.

Lemma still_open_app open es1 es2 :
  still_open open (es1 ++ es2) = still_open (still_open open es1) es2.
Proof.
  revert open. induction es1 as [|e es1 IH]; intros open; [reflexivity |].
  destruct e; cbn [app still_open]; apply IH.
Qed.

(** Steps of the environment in which the events [es] occur: no call of
    the supervising thread, no slot taken. *)
Definition fed (es : list event) (w w' : world) : Prop :=
  calls w' = calls w /\ sched w' = sched w /\
  child_wr w' = still_open (child_wr w) es /\
  pipe_data w' = pipe_data w ++ arriving (child_wr w) es.

Lemma fed_refl w : fed [] w w.
Proof. repeat split. symmetry. apply app_nil_r. Qed.

Lemma fed_app es1 es2 w1 w2 w3 :
  fed es1 w1 w2 -> fed es2 w2 w3 -> fed (es1 ++ es2) w1 w3.
Proof.
  intros (c1 & s1 & o1 & p1) (c2 & s2 & o2 & p2).
  repeat split; try congruence.
  - rewrite still_open_app, o2, o1. reflexivity.
  - rewrite arriving_app, p2, p1, o1, app_assoc. reflexivity.
Qed.

Lemma fed_trans w1 w2 w3 : fed [] w1 w2 -> fed [] w2 w3 -> fed [] w1 w3.
Proof. apply (@fed_app [] []). Qed.

#[local] Hint Resolve fed_refl : keeps.

Ltac fed_goal :=
  intros; unfold fed; simpl;
  repeat match goal with
         | |- context [if ?b then _ else _] => destruct b eqn:?
         | |- context [match ?x with _ => _ end] => destruct x eqn:?
         end;
  simpl; rewrite ?app_nil_r; repeat split; reflexivity.

Lemma kill_fed pid sig : keeps (fed []) (kill pid sig).
Proof. unfold kill. keeps_with fed_trans fed_goal. Qed.

#[local] Hint Resolve kill_fed : keeps.

Lemma signal_handler_fed sig : keeps (fed []) (signal_handler sig).
Proof. unfold signal_handler. keeps_with fed_trans fed_goal. Qed.

Lemma stopJvm_fed : keeps (fed []) stopJvm.
Proof. unfold stopJvm. keeps_with fed_trans fed_goal. Qed.

Lemma occur_fed e w : fed [e] w (snd (runState (occur e) w)).
Proof.
  destruct e as [s | | bs | | st]; cbn [occur].
  - exact (signal_handler_fed (signum s) w).
  - rewrite run_bind. exact (stopJvm_fed w).
  - unfold upd. cbn [runState snd]. unfold fed. cbn [arriving still_open].
    destruct (child_wr w) eqn:E; cbn [calls sched child_wr pipe_data
                                       set_pipe_data];
      rewrite ?E, !app_nil_r; repeat split; reflexivity.
  - unfold upd. cbn [runState snd]. unfold fed. cbn [arriving still_open].
    cbn [calls sched child_wr pipe_data set_child_wr].
    rewrite app_nil_r. repeat split; reflexivity.
  - unfold upd. cbn [runState snd]. unfold fed. cbn [arriving still_open].
    destruct (proc w) as [[|]|];
      cbn [calls sched child_wr pipe_data set_proc];
      rewrite app_nil_r; repeat split; reflexivity.
Qed.

Lemma occur_all_fed es : forall w, fed es w (snd (runState (occur_all es) w)).
Proof.
  induction es as [|e es IH]; intros w; cbn [occur_all].
  - apply fed_refl.
  - rewrite run_bind. apply (@fed_app [e] es _ _ _ (occur_fed e w)). apply IH.
Qed.

(** What a system call's share of the schedule does before the kernel
    answers: the call is recorded, one slot is taken, its events occur. *)
Definition taken (c : call) (w w' : world) : Prop :=
  exists ss,
    calls w' = calls w ++ [c] /\ sched w = ss ++ sched w' /\
    child_wr w' = still_open (child_wr w) (flat_map events ss) /\
    pipe_data w' = pipe_data w ++ arriving (child_wr w) (flat_map events ss).

Lemma turned_taken c w : taken c w (turned c w).
Proof.
  unfold turned. rewrite run_turn. cbn [sched logged set_calls].
  destruct (sched w) as [|sl rest] eqn:E; cbn [snd].
  - exists []. cbn [calls sched child_wr pipe_data logged set_calls
                      flat_map arriving still_open app].
    rewrite app_nil_r. repeat split.
  - destruct (occur_all_fed (events sl) (set_sched rest (logged c w)))
      as (C & S & O & P).
    cbn [calls sched child_wr pipe_data logged set_calls set_sched] in C, S,
      O, P.
    exists [sl]. cbn [flat_map app]. rewrite app_nil_r, E, S.
    repeat split; assumption.
Qed.

(** The calls made from [w] to [w'] hand to [write] a stretch of bytes
    that, followed by what the pipe holds in [w'], is what the pipe held
    in [w] followed by what the slots taken since have put into it. *)
Definition conserved (w w' : world) : Prop :=
  exists cs ss,
    calls w' = calls w ++ cs /\ sched w = ss ++ sched w' /\
    child_wr w' = still_open (child_wr w) (flat_map events ss) /\
    handed cs ++ pipe_data w' =
    pipe_data w ++ arriving (child_wr w) (flat_map events ss).

Lemma conserved_refl w : conserved w w.
Proof.
  exists [], []. cbn [flat_map arriving still_open handed app].
  rewrite !app_nil_r. repeat split.
Qed.

Lemma conserved_trans w1 w2 w3 :
  conserved w1 w2 -> conserved w2 w3 -> conserved w1 w3.
Proof.
  intros (cs1 & ss1 & C1 & S1 & O1 & P1) (cs2 & ss2 & C2 & S2 & O2 & P2).
  exists (cs1 ++ cs2), (ss1 ++ ss2).
  rewrite flat_map_app, still_open_app, arriving_app, handed_app.
  split; [rewrite C2, C1, app_assoc; reflexivity |].
  split; [rewrite S1, S2, app_assoc; reflexivity |].
  split; [rewrite O2, O1; reflexivity |].
  rewrite <- app_assoc, P2, O1, !app_assoc, P1. reflexivity.
Qed.

#[local] Hint Resolve conserved_refl : keeps.

(** A call that hands nothing to [write] and takes nothing from the
    pipe. *)
Lemma turned_conserved c w :
  handed [c] = [] -> conserved w (turned c w).
Proof.
  intros H. destruct (turned_taken c w) as (ss & C & S & O & P).
  exists [c], ss. rewrite H. repeat split; assumption.
Qed.

Ltac conserved_goal := intros; apply conserved_refl.

Lemma poll_conserved f ev timeout : keeps conserved (poll f ev timeout).
Proof.
  intros w. pose proof (poll_run f ev timeout w) as H. cbv zeta in H.
  rewrite H.
  pose proof (@turned_conserved (Poll f ev timeout) w eq_refl) as Ht.
  destruct (fate w); cbn [snd]; exact Ht.
Qed.

Lemma waitpid_nohang_conserved pid : keeps conserved (waitpid_nohang pid).
Proof.
  intros w. pose proof (waitpid_nohang_run pid w) as H. cbv zeta in H.
  rewrite H.
  pose proof (@turned_conserved (Waitpid pid WNOHANG) w eq_refl) as Ht.
  destruct (fate w);
    try (destruct (pid =? Z.pos (kpid (turned (Waitpid pid WNOHANG) w)));
         [destruct (proc (turned (Waitpid pid WNOHANG) w)) as [[|st]|] |]);
    cbn [snd]; exact Ht.
Qed.

Lemma deliver_world buffer w :
  snd (runState (deliver buffer) w) = snd (runState (write Stdout buffer) w).
Proof.
  unfold deliver. rewrite run_bind.
  destruct (fst (runState (write Stdout buffer) w) =? -1); [| reflexivity].
  rewrite run_bind. cbn [rd runState fst snd].
  destruct (_ =? EPIPE); reflexivity.
Qed.

(** [write] of the bytes just taken from the front of the pipe. *)
Lemma write_conserved n w :
  conserved w
    (snd (runState (write Stdout (firstn n (pipe_data w)))
            (set_pipe_data (skipn n (pipe_data w)) w))).
Proof.
  pose proof (write_run Stdout (firstn n (pipe_data w))
                (set_pipe_data (skipn n (pipe_data w)) w)) as H.
  cbv zeta in H. rewrite H. clear H.
  destruct (turned_taken (Write Stdout (firstn n (pipe_data w)))
              (set_pipe_data (skipn n (pipe_data w)) w))
    as (ss & C & S & O & P).
  cbn [calls sched child_wr pipe_data set_pipe_data] in C, S, O, P.
  assert (Hc : forall v,
             calls v = calls w ++ [Write Stdout (firstn n (pipe_data w))] ->
             sched w = ss ++ sched v ->
             child_wr v = still_open (child_wr w) (flat_map events ss) ->
             pipe_data v =
             skipn n (pipe_data w) ++
             arriving (child_wr w) (flat_map events ss) ->
             conserved w v).
  { intros v Cv Sv Ov Pv.
    exists [Write Stdout (firstn n (pipe_data w))], ss.
    repeat split; try assumption.
    cbn [handed flat_map]. rewrite app_nil_r, Pv, app_assoc, firstn_skipn.
    reflexivity. }
  destruct (fate (set_pipe_data (skipn n (pipe_data w)) w));
    cbn [snd]; apply Hc; assumption.
Qed.

(** The state in which the block [if (revents & POLLIN)] ends. *)
Lemma forward_world revents w :
  let wt := turned (Read PipeRd buffer_size) w in
  snd (runState (forward revents) w) =
  if negb (Z.land revents POLLIN =? 0) then
    match fate w with
    | Fail e => set_errno e wt
    | _ =>
        match pipe_data wt with
        | [] => if writers wt then set_errno EAGAIN wt else wt
        | _ => snd (runState
                      (write Stdout (firstn buffer_size (pipe_data wt)))
                      (set_pipe_data (skipn buffer_size (pipe_data wt)) wt))
        end
    end
  else w.
Proof.
  cbv zeta. unfold forward.
  destruct (negb (Z.land revents POLLIN =? 0)); [| reflexivity].
  rewrite run_bind.
  pose proof (read_run PipeRd buffer_size w) as Hr. cbv zeta in Hr.
  set (wt := turned (Read PipeRd buffer_size) w) in *.
  assert (Herr : forall v,
             snd (runState
                    (e <- rd errno ;;
                     if negb (e =? EAGAIN) && negb (e =? EWOULDBLOCK)
                     then ret Break else ret Continue) v) = v).
  { intros v. rewrite run_bind. cbn [rd runState fst snd].
    destruct (negb _ && negb _); reflexivity. }
  assert (Hdata : forall b d,
             snd (runState
                    ((fun pat : Z * list byte =>
                        let '(bytes_read, buffer) := pat in
                        if bytes_read >? 0 then deliver buffer
                        else if bytes_read =? 0 then ret Break
                        else if bytes_read =? -1 then
                          e <- rd errno ;;
                          if negb (e =? EAGAIN) && negb (e =? EWOULDBLOCK)
                          then ret Break else ret Continue
                        else ret Continue)
                       (Z.of_nat (List.length (firstn buffer_size (b :: d))),
                        firstn buffer_size (b :: d)))
                    (set_pipe_data (skipn buffer_size (b :: d)) wt)) =
             snd (runState (write Stdout (firstn buffer_size (b :: d)))
                    (set_pipe_data (skipn buffer_size (b :: d)) wt))).
  { intros b d. cbv beta iota.
    destruct (Z.gtb_spec
                (Z.of_nat (List.length (firstn buffer_size (b :: d)))) 0)
      as [_ | Hle].
    - apply deliver_world.
    - exfalso. unfold buffer_size in Hle. cbn [firstn List.length] in Hle.
      lia. }
  destruct (fate w) as [| e | k]; rewrite Hr; cbn [fst snd].
  - destruct (pipe_data wt) as [|b d] eqn:Ed.
    + destruct (writers wt); cbn [fst snd]; [apply Herr | reflexivity].
    + apply (Hdata b d).
  - apply Herr.
  - destruct (pipe_data wt) as [|b d] eqn:Ed.
    + destruct (writers wt); cbn [fst snd]; [apply Herr | reflexivity].
    + apply (Hdata b d).
Qed.

Lemma forward_conserved revents : keeps conserved (forward revents).
Proof.
  intros w. pose proof (forward_world revents w) as H. cbv zeta in H.
  rewrite H. clear H.
  destruct (negb (Z.land revents POLLIN =? 0)); [| apply conserved_refl].
  pose proof (@turned_conserved (Read PipeRd buffer_size) w eq_refl) as Ht.
  pose proof (write_conserved buffer_size
                (turned (Read PipeRd buffer_size) w)) as Hw.
  set (wt := turned (Read PipeRd buffer_size) w) in *.
  destruct (fate w) as [| e | k]; try exact Ht;
    (destruct (pipe_data wt) as [|b d] eqn:Ed;
     [destruct (writers wt); exact Ht
     | exact (conserved_trans Ht Hw)]).
Qed.

#[local] Hint Resolve poll_conserved waitpid_nohang_conserved
  forward_conserved : keeps.

Lemma iteration_conserved pid : keeps conserved (iteration pid).
Proof.
  unfold iteration. keeps_with conserved_trans conserved_goal.
Qed.

Lemma supervise_conserved fuel pid :
  forall w w', supervise fuel pid w = Some w' -> conserved w w'.
Proof.
  induction fuel as [|n IH]; intros w w' H; [discriminate |].
  rewrite supervise_S in H.
  pose proof (iteration_conserved pid w) as Hi.
  destruct (runState (iteration pid) w) as [[|] w1]; cbn [snd] in Hi.
  - injection H as <-. exact Hi.
  - eapply conserved_trans; [exact Hi | apply IH; exact H].
Qed.

(** X14.  Whenever the loop of [launchJvm] ends, the buffers its calls
    have handed to [write], one after the other, followed by what is
    still in the pipe, are exactly what the pipe held when the loop began
    followed by what the child side wrote into it during the slots the
    loop's calls took: between [read] and [write] no byte is dropped,
    repeated or reordered. *)
Theorem stream_conserved fuel pid w w' :
  supervise fuel pid w = Some w' ->
  exists cs ss,
    calls w' = calls w ++ cs /\ sched w = ss ++ sched w' /\
    handed cs ++ pipe_data w' =
    pipe_data w ++ arriving (child_wr w) (flat_map events ss).
Proof.
  intros H. destruct (supervise_conserved _ _ _ H) as (cs & ss & C & S & _ & P).
  exists cs, ss. repeat split; assumption.
Qed.

(** A child that prints its line while the supervisor polls and once
    more, closing and exiting, while the first line is being written. *)
Definition chatting : world :=
  {| child_pid := 1234; signal_received := 0; errno := 0; kpid := 1234;
     proc := Some Running; pipe_data := []; child_wr := true;
     rd_open := true; wr_open := false; out := []; child_calls := [];
     kills := []; calls := [];
     sched := [ during [ChildWrites hello]; eventless Normal;
                during [ChildWrites hello; ChildCloses;
                        ChildDies (Exited 0)] ] |}.

Lemma stream_conserved_witness :
  exists w',
    supervise 2 1234 chatting = Some w' /\
    exists cs ss,
      calls w' = calls chatting ++ cs /\
      sched chatting = ss ++ sched w' /\
      handed cs ++ pipe_data w' =
      pipe_data chatting ++
      arriving (child_wr chatting) (flat_map events ss).
Proof.
  eexists. split; [vm_compute; reflexivity |].
  refine (@stream_conserved 2 1234 chatting _ _).
  vm_compute. reflexivity.
Defined.

(** ** With no call failing, what was read is what comes out *)

(** A schedule in which every call goes as the kernel state says. *)
Definition unfailing (ss : list slot) : Prop :=
  Forall (fun s => result s = Normal) ss.

Lemma unfailing_fate w : unfailing (sched w) -> fate w = Normal.
Proof.
  unfold unfailing, fate. intros H.
  destruct (sched w) as [|s rest]; [reflexivity |].
  inversion H; assumption.
Qed.

Lemma unfailing_tl ss : unfailing ss -> unfailing (tl ss).
Proof.
  unfold unfailing. intros H. destruct ss as [|s rest]; [exact H |].
  inversion H; assumption.
Qed.

(** Along an unfailing schedule the standard output grows by what the
    calls hand to [write]. *)
Definition relayed (w w' : world) : Prop :=
  unfailing (sched w) ->
  unfailing (sched w') /\
  exists cs, calls w' = calls w ++ cs /\ out w' = out w ++ handed cs.

Lemma relayed_refl w : relayed w w.
Proof.
  intros H. split; [exact H |]. exists []. cbn [handed flat_map].
  rewrite !app_nil_r. split; reflexivity.
Qed.

Lemma relayed_trans w1 w2 w3 :
  relayed w1 w2 -> relayed w2 w3 -> relayed w1 w3.
Proof.
  intros H12 H23 H1. destruct (H12 H1) as (H2 & cs1 & C1 & O1).
  destruct (H23 H2) as (H3 & cs2 & C2 & O2).
  split; [exact H3 |]. exists (cs1 ++ cs2).
  rewrite handed_app, C2, C1, O2, O1, !app_assoc. split; reflexivity.
Qed.

#[local] Hint Resolve relayed_refl : keeps.

Ltac relayed_goal := intros; apply relayed_refl.

Lemma turned_unfailing c w :
  unfailing (sched w) -> unfailing (sched (turned c w)).
Proof.
  intros H. unfold turned. rewrite turn_sched. apply unfailing_tl. exact H.
Qed.

Lemma turned_relayed c w : handed [c] = [] -> relayed w (turned c w).
Proof.
  intros Hc H. split; [apply turned_unfailing; exact H |].
  destruct (turned_taken c w) as (ss & C & _).
  exists [c]. rewrite Hc, app_nil_r, turned_out. split; [exact C | reflexivity].
Qed.

Lemma poll_relayed f ev timeout : keeps relayed (poll f ev timeout).
Proof.
  intros w. pose proof (poll_run f ev timeout w) as H. cbv zeta in H.
  rewrite H.
  pose proof (@turned_relayed (Poll f ev timeout) w eq_refl) as Ht.
  destruct (fate w); cbn [snd]; exact Ht.
Qed.

Lemma waitpid_nohang_relayed pid : keeps relayed (waitpid_nohang pid).
Proof.
  intros w. pose proof (waitpid_nohang_run pid w) as H. cbv zeta in H.
  rewrite H.
  pose proof (@turned_relayed (Waitpid pid WNOHANG) w eq_refl) as Ht.
  destruct (fate w);
    try (destruct (pid =? Z.pos (kpid (turned (Waitpid pid WNOHANG) w)));
         [destruct (proc (turned (Waitpid pid WNOHANG) w)) as [[|st]|] |]);
    cbn [snd]; exact Ht.
Qed.

(** [write] in a state that differs from [w] in the pipe only. *)
Lemma write_relayed buf d w :
  relayed w (snd (runState (write Stdout buf) (set_pipe_data d w))).
Proof.
  intros Hu.
  pose proof (write_run Stdout buf (set_pipe_data d w)) as H.
  cbv zeta in H. rewrite H. clear H.
  rewrite (unfailing_fate (set_pipe_data d w) Hu). cbn [snd out set_out].
  split; [apply (turned_unfailing (Write Stdout buf) (set_pipe_data d w) Hu) |].
  destruct (turned_taken (Write Stdout buf) (set_pipe_data d w))
    as (ss & C & _).
  exists [Write Stdout buf]. cbn [handed flat_map].
  rewrite app_nil_r, turned_out. split; [exact C | reflexivity].
Qed.

Lemma forward_relayed revents : keeps relayed (forward revents).
Proof.
  intros w. pose proof (forward_world revents w) as H. cbv zeta in H.
  rewrite H. clear H.
  destruct (negb (Z.land revents POLLIN =? 0)); [| apply relayed_refl].
  pose proof (@turned_relayed (Read PipeRd buffer_size) w eq_refl) as Ht.
  set (wt := turned (Read PipeRd buffer_size) w) in *.
  pose proof (write_relayed (firstn buffer_size (pipe_data wt))
                (skipn buffer_size (pipe_data wt)) wt) as Hw.
  destruct (fate w) as [| e | k]; try exact Ht;
    (destruct (pipe_data wt) as [|b d] eqn:Ed;
     [destruct (writers wt); exact Ht
     | exact (relayed_trans Ht Hw)]).
Qed.

#[local] Hint Resolve poll_relayed waitpid_nohang_relayed
  forward_relayed : keeps.

Lemma iteration_relayed pid : keeps relayed (iteration pid).
Proof.
  unfold iteration. keeps_with relayed_trans relayed_goal.
Qed.

Lemma supervise_relayed fuel pid :
  forall w w', supervise fuel pid w = Some w' -> relayed w w'.
Proof.
  induction fuel as [|n IH]; intros w w' H; [discriminate |].
  rewrite supervise_S in H.
  pose proof (iteration_relayed pid w) as Hi.
  destruct (runState (iteration pid) w) as [[|] w1]; cbn [snd] in Hi.
  - injection H as <-. exact Hi.
  - eapply relayed_trans; [exact Hi | apply IH; exact H].
Qed.

(** X15.  If none of the calls still ahead fails or is cut short, then
    whenever the loop of [launchJvm] ends, the standard output followed
    by what is still in the pipe is what they were when the loop began
    followed by everything the child side wrote during the slots the
    loop's calls took: what the loop has read has come out, in order. *)
Theorem output_complete fuel pid w w' :
  unfailing (sched w) ->
  supervise fuel pid w = Some w' ->
  exists ss,
    sched w = ss ++ sched w' /\
    out w' ++ pipe_data w' =
    out w ++ pipe_data w ++ arriving (child_wr w) (flat_map events ss).
Proof.
  intros Hu H.
  destruct (supervise_conserved _ _ _ H) as (cs & ss & C & S & _ & P).
  destruct (supervise_relayed _ _ _ H Hu) as (_ & cs' & C' & O).
  rewrite C in C'. apply app_inv_head in C'. subst cs'.
  exists ss. split; [exact S |].
  rewrite O, <- app_assoc, P. reflexivity.
Qed.

Lemma output_complete_witness :
  exists w',
    supervise 2 1234 chatting = Some w' /\
    exists ss,
      sched chatting = ss ++ sched w' /\
      out w' ++ pipe_data w' =
      out chatting ++ pipe_data chatting ++
      arriving (child_wr chatting) (flat_map events ss).
Proof.
  eexists. split; [vm_compute; reflexivity |].
  refine (@output_complete 2 1234 chatting _ _ _).
  - repeat constructor.
  - vm_compute. reflexivity.
Defined.
